(** * Image-processing workbench: processors, commands and undo/redo history

    A shallow embedding of [processing.py], [commands.py] and the parts of
    [ui.py] that drive the command history, followed by the properties
    checked against them.

    Conventions of the embedding.
    - A numpy array is a record of its dtype, its shape and its samples in
      row-major order.  Samples are rationals: an 8-bit or 64-bit integer
      sample is the integer it holds, a float64 sample is the rational it
      denotes.  Rounding of float arithmetic, NaN and infinities are not
      represented; a float division whose divisor is zero (numpy stores
      inf/nan and warns) stops the computation with [DivideByZero].
    - Python exceptions are the [Raise] outcomes of [result]; state that was
      written before an exception is raised stays written.
    - The scikit-image routines are not part of the repository: they are the
      fields of the class [Skimage], and every statement holds for every
      instance of it. *)

From Stdlib Require Import String.
From Stdlib Require Import List Permutation ZArith QArith Qround Qminmax Bool Lia.
Import ListNotations.
Local Open Scope Q_scope.

(** ** Exceptions and results *)

Inductive exn : Type :=
| AttributeError   (* attribute access on None *)
| ValueError       (* numpy: empty reduction, tuple unpacking, bad bins *)
| LibraryError     (* raised inside a scikit-image routine *)
| DivideByZero.    (* float division by zero, see the conventions above *)

Inductive result (A : Type) : Type :=
| Ok (a : A)
| Raise (e : exn).
Arguments Ok {A} a.
Arguments Raise {A} e.

Definition bind {A B : Type} (r : result A) (k : A -> result B) : result B :=
  match r with
  | Ok a => k a
  | Raise e => Raise e
  end.

Notation "x <- r ;; k" := (bind r (fun x => k))
  (at level 61, r at next level, right associativity).

(** A library routine either returns or raises inside the library. *)
Definition lib {A : Type} (o : option A) : result A :=
  match o with
  | Some a => Ok a
  | None => Raise LibraryError
  end.

(** ** numpy arrays *)

Inductive dtype : Type := uint8 | int64 | float64 | bool_.

Record ndarray : Type := mk_ndarray {
  dtype_of : dtype;
  shape : list nat;
  data : list Q
}.

Definition ndim (a : ndarray) : nat := length (shape a).

(** [a.copy()]: a new buffer with the same contents.  Arrays are values here,
    and no code of the repository writes into an array that a controller slot
    or a command holds, so a copy and its original are the same value. *)
Definition copy (a : ndarray) : ndarray := a.

Definition Qltb (x y : Q) : bool := negb (Qle_bool y x).

(** [a.min()] and [a.max()]: ValueError on a zero-size array. *)
Definition np_min (l : list Q) : result Q :=
  match l with
  | [] => Raise ValueError
  | x :: t => Ok (fold_left Qmin t x)
  end.

Definition np_max (l : list Q) : result Q :=
  match l with
  | [] => Raise ValueError
  | x :: t => Ok (fold_left Qmax t x)
  end.

Definition np_sub (l : list Q) (s : Q) : list Q := map (fun x => x - s) l.
Definition np_mul (l : list Q) (s : Q) : list Q := map (fun x => x * s) l.

Definition np_div (l : list Q) (d : Q) : result (list Q) :=
  if Qeq_bool d 0 then Raise DivideByZero else Ok (map (fun x => x / d) l).

Definition np_clip (l : list Q) (lo hi : Q) : list Q :=
  map (fun x => Qmin (Qmax x lo) hi) l.

(** Conversion of one sample to uint8: the fractional part is dropped
    (towards zero) and the integer is reduced modulo 256. *)
Definition Qtrunc (x : Q) : Z :=
  if Qltb x 0 then Qceiling x else Qfloor x.

Definition to_uint8 (x : Q) : Q := inject_Z (Qtrunc x mod 256).

Definition astype_uint8 (sh : list nat) (l : list Q) : ndarray :=
  mk_ndarray uint8 sh (map to_uint8 l).

(** numpy's integer floor division: a zero divisor gives 0 (with a
    RuntimeWarning), it does not raise. *)
Definition np_floordiv (a b : Z) : Z :=
  if (b =? 0)%Z then 0%Z else (a / b)%Z.

(** [np.digitize(x, bins)] for one sample, with the default [right=False]:
    [searchsorted(bins, x, side='right')], the number of bins [b] with
    [b <= x], when the bins are non-decreasing; for bins that are
    non-increasing, [len(bins)] minus that number in the reversed bins, which
    is the number of bins above [x].  Bins that are neither raise
    ValueError. *)
Fixpoint nondecreasing (bins : list Q) : bool :=
  match bins with
  | a :: (b :: _) as t => Qle_bool a b && nondecreasing t
  | _ => true
  end.

Fixpoint nonincreasing (bins : list Q) : bool :=
  match bins with
  | a :: (b :: _) as t => Qle_bool b a && nonincreasing t
  | _ => true
  end.

Definition count (p : Q -> bool) (l : list Q) : Z :=
  Z.of_nat (length (filter p l)).

Definition digitize1 (bins : list Q) (x : Q) : Z :=
  if nondecreasing bins
  then count (fun b => Qle_bool b x) bins
  else (Z.of_nat (length bins) - count (fun b => Qle_bool b x) (rev bins))%Z.

Definition digitize (l : list Q) (bins : list Q) : result (list Z) :=
  if nondecreasing bins || nonincreasing bins
  then Ok (map (digitize1 bins) l)
  else Raise ValueError.

(** Maximum of an integer array, ValueError when it is empty. *)
Definition np_maxZ (l : list Z) : result Z :=
  match l with
  | [] => Raise ValueError
  | x :: t => Ok (fold_left Z.max t x)
  end.

(** ** processing.py *)

(** The scikit-image routines the processors call.  [None] stands for an
    exception raised inside the routine.  [chan_vese] is the call with the
    fixed arguments of [ChanVeseProcessor] (mu 0.25, lambda1 and lambda2 1,
    tol 1e-3, 200 iterations), [morphological_chan_vese] the call with 50
    iterations, [threshold_multiotsu] the call with [classes=3], which
    returns two thresholds.  The two segmentations return a mask with one
    entry per pixel. *)
Class Skimage : Type := {
  rgb2gray : ndarray -> option ndarray;
  rgb2hsv : ndarray -> option ndarray;
  threshold_otsu : ndarray -> option Q;
  threshold_multiotsu : ndarray -> option (Q * Q);
  chan_vese : ndarray -> option (list bool);
  morphological_chan_vese : ndarray -> option (list bool);
  roberts : ndarray -> option ndarray;
  sobel : ndarray -> option ndarray;
  scharr : ndarray -> option ndarray;
  prewitt : ndarray -> option ndarray
}.

Section Processing.
Context {sk : Skimage}.

(** [color.rgb2gray(image) if image.ndim == 3 else image] *)
Definition to_gray (image : ndarray) : result ndarray :=
  if Nat.eqb (ndim image) 3 then lib (rgb2gray image) else Ok image.

Definition Rgb2GrayProcessor (image : ndarray) : result ndarray :=
  g <- lib (rgb2gray image) ;;
  Ok (astype_uint8 (shape g) (np_mul (data g) 255)).

Definition Rgb2HsvProcessor (image : ndarray) : result ndarray :=
  if negb (Nat.eqb (ndim image) 3) || negb (Nat.eqb (nth 2 (shape image) 0%nat) 3)
  then Ok image
  else
    hsv <- lib (rgb2hsv image) ;;
    Ok (astype_uint8 (shape hsv) (np_mul (data hsv) 255)).

(** The class indices [np.digitize(gray, bins=thresholds)]. *)
Definition multiotsu_classes (gray : ndarray) (t : Q * Q) : result (list Z) :=
  digitize (data gray) [fst t; snd t].

(** [(result * (255 // result.max())).astype(np.uint8)] on one class index. *)
Definition multiotsu_scale (m k : Z) : Q :=
  inject_Z ((k * np_floordiv 255 m) mod 256).

Definition MultiOtsuProcessor (image : ndarray) : result ndarray :=
  gray <- to_gray image ;;
  thresholds <- lib (threshold_multiotsu gray) ;;
  classes <- multiotsu_classes gray thresholds ;;
  m <- np_maxZ classes ;;
  Ok (mk_ndarray uint8 (shape gray) (map (multiotsu_scale m) classes)).

(** [mask.astype(np.uint8) * 255] *)
Definition mask_to_image (sh : list nat) (mask : list bool) : ndarray :=
  mk_ndarray uint8 sh (map (fun b : bool => if b then 255 else 0) mask).

Definition ChanVeseProcessor (image : ndarray) : result ndarray :=
  gray <- to_gray image ;;
  mask <- lib (chan_vese gray) ;;
  Ok (mask_to_image (shape gray) mask).

Definition MorphSnakesProcessor (image : ndarray) : result ndarray :=
  gray <- to_gray image ;;
  mask <- lib (morphological_chan_vese gray) ;;
  Ok (mask_to_image (shape gray) mask).

(** The steps of [_edge_emphasize], one definition per statement. *)

(** [res = res - res.min()] *)
Definition emphasize_shift (res : list Q) : result (list Q) :=
  m <- np_min res ;;
  Ok (np_sub res m).

(** [if res.max() > 0: res /= res.max()] *)
Definition emphasize_normalize (res : list Q) : result (list Q) :=
  mx <- np_max res ;;
  if Qltb 0 mx
  then (d <- np_max res ;; np_div res d)
  else Ok res.

(** [out = (res - thr) / (1 - thr) if (1 - thr) > 0 else res] *)
Definition emphasize_rescale (res : list Q) (thr : Q) : result (list Q) :=
  if Qltb 0 (1 - thr)
  then np_div (np_sub res thr) (1 - thr)
  else Ok res.

Definition _edge_emphasize (res : ndarray) : result ndarray :=
  shifted <- emphasize_shift (data res) ;;
  normed <- emphasize_normalize shifted ;;
  thr <- lib (threshold_otsu (mk_ndarray float64 (shape res) normed)) ;;
  out <- emphasize_rescale normed thr ;;
  Ok (astype_uint8 (shape res) (np_mul (np_clip out 0 1) 255)).

Definition RobertsProcessor (image : ndarray) : result ndarray :=
  gray <- to_gray image ;;
  res <- lib (roberts gray) ;;
  _edge_emphasize res.

Definition SobelProcessor (image : ndarray) : result ndarray :=
  gray <- to_gray image ;;
  res <- lib (sobel gray) ;;
  _edge_emphasize res.

Definition ScharrProcessor (image : ndarray) : result ndarray :=
  gray <- to_gray image ;;
  res <- lib (scharr gray) ;;
  _edge_emphasize res.

Definition PrewittProcessor (image : ndarray) : result ndarray :=
  gray <- to_gray image ;;
  res <- lib (prewitt gray) ;;
  _edge_emphasize res.

End Processing.

(** ** commands.py: the command interface and the history *)

(** [ICommand]: the two abstract methods.  A command acts on a world [W] (for
    the concrete commands, the attributes of the controller); a method
    returns normally or raises, and the world it leaves is returned in both
    cases. *)
Class ICommand (W C : Type) : Type := {
  execute : C -> W -> result unit * W;
  undo : C -> W -> result unit * W
}.

(** [list.pop()] on a non-empty list: the list without its tail element, and
    that element. *)
Fixpoint pop {A : Type} (l : list A) : option (list A * A) :=
  match l with
  | [] => None
  | x :: t =>
      match pop t with
      | None => Some ([], x)
      | Some (r, y) => Some (x :: r, y)
      end
  end.

Module CommandHistory.

Record t (C : Type) : Type := mk {
  _undo_stack : list C;
  _redo_stack : list C
}.
Arguments mk {C} _ _.
Arguments _undo_stack {C} _.
Arguments _redo_stack {C} _.

(** [__init__] *)
Definition init {C : Type} : t C := mk [] [].

Section Methods.
Context {W C : Type} {IC : ICommand W C}.

Definition push (h : t C) (cmd : C) : t C :=
  mk (_undo_stack h ++ [cmd]) [].

Definition undo (h : t C) (w : W) : result unit * t C * W :=
  match pop (_undo_stack h) with
  | None => (Ok tt, h, w)
  | Some (rest, cmd) =>
      let h1 := mk rest (_redo_stack h) in
      match undo (ICommand := IC) cmd w with
      | (Raise e, w1) => (Raise e, h1, w1)
      | (Ok _, w1) => (Ok tt, mk rest (_redo_stack h ++ [cmd]), w1)
      end
  end.

Definition redo (h : t C) (w : W) : result unit * t C * W :=
  match pop (_redo_stack h) with
  | None => (Ok tt, h, w)
  | Some (rest, cmd) =>
      let h1 := mk (_undo_stack h) rest in
      match execute cmd w with
      | (Raise e, w1) => (Raise e, h1, w1)
      | (Ok _, w1) => (Ok tt, mk (_undo_stack h ++ [cmd]) rest, w1)
      end
  end.

End Methods.
End CommandHistory.

(** ** ui.py: the attributes of the controller that commands read and write *)

(** The enabled flags of the widgets, by the groups in which [ui.py] sets
    them: the open-source button; the source group (clear source, export
    source and the nine processing buttons); the output group (save, save as,
    export output, clear output); undo; redo.  Each button has a menu action
    that is always set with it. *)
Record controls : Type := mk_controls {
  enOpenSource : bool;
  enSourceGroup : bool;
  enOutputGroup : bool;
  enUndoOutput : bool;
  enRedoOutput : bool
}.

(** The controller without its [history] attribute.  A label is the 8-bit
    buffer it shows, [None] when it is clear. *)
Record ctrl_state : Type := mk_ctrl {
  img_source : option ndarray;
  img_output : option ndarray;
  source_path : option String.string;
  lblSourceImage : option ndarray;
  lblOutputImage : option ndarray;
  widgets : controls
}.

Definition set_img_source (c : ctrl_state) (v : option ndarray) : ctrl_state :=
  mk_ctrl v (img_output c) (source_path c) (lblSourceImage c) (lblOutputImage c) (widgets c).
Definition set_img_output (c : ctrl_state) (v : option ndarray) : ctrl_state :=
  mk_ctrl (img_source c) v (source_path c) (lblSourceImage c) (lblOutputImage c) (widgets c).
Definition set_source_path (c : ctrl_state) (v : option String.string) : ctrl_state :=
  mk_ctrl (img_source c) (img_output c) v (lblSourceImage c) (lblOutputImage c) (widgets c).
Definition set_lblSourceImage (c : ctrl_state) (v : option ndarray) : ctrl_state :=
  mk_ctrl (img_source c) (img_output c) (source_path c) v (lblOutputImage c) (widgets c).
Definition set_lblOutputImage (c : ctrl_state) (v : option ndarray) : ctrl_state :=
  mk_ctrl (img_source c) (img_output c) (source_path c) (lblSourceImage c) v (widgets c).
Definition set_widgets (c : ctrl_state) (v : controls) : ctrl_state :=
  mk_ctrl (img_source c) (img_output c) (source_path c) (lblSourceImage c) (lblOutputImage c) v.

Inductive label : Type := LblSourceImage | LblOutputImage.

Definition setPixmap (l : label) (c : ctrl_state) (p : ndarray) : ctrl_state :=
  match l with
  | LblSourceImage => set_lblSourceImage c (Some p)
  | LblOutputImage => set_lblOutputImage c (Some p)
  end.

(** The 8-bit buffer [_show_image] builds from an array.  Scaling the pixmap
    to the size of the label is Qt's and is not represented. *)
Definition show_buffer (array : ndarray) : result ndarray :=
  let img := data array in
  if Nat.eqb (ndim array) 2 then
    m <- np_min img ;;
    let img := np_sub img m in
    mx <- np_max img ;;
    img <- (if Qltb 0 mx then (d <- np_max img ;; np_div img d) else Ok img) ;;
    Ok (astype_uint8 (shape array) (np_mul img 255))
  else
    mx <- np_max img ;;
    img <- (if Qltb 1 mx then np_div img 255 else Ok img) ;;
    let img := astype_uint8 (shape array) (np_mul (np_clip img 0 1) 255) in
    (* h, w, ch = img.shape *)
    if Nat.eqb (ndim array) 3 then Ok img else Raise ValueError.

(** [_show_image(array, label)].  Its first statement is
    [array.astype(np.float64)], which raises AttributeError when [array] is
    None. *)
Definition _show_image (array : option ndarray) (l : label) (c : ctrl_state)
  : result unit * ctrl_state :=
  match array with
  | None => (Raise AttributeError, c)
  | Some a =>
      match show_buffer a with
      | Raise e => (Raise e, c)
      | Ok p => (Ok tt, setPixmap l c p)
      end
  end.

(** ** commands.py: the concrete commands *)

Inductive ProcKind : Type :=
| Grayscale | Hsv | MultiOtsu | ChanVese | MorphSnakes
| Roberts | Sobel | Scharr | Prewitt.

(** The attributes a command object holds besides [ctrl]: [prev_src] for
    [ClearSourceCommand], nothing for [ClearOutputCommand], [prev] for the
    subclasses of [BaseImageCommand], which differ in their processor. *)
Inductive CommandBody : Type :=
| ClearSourceCommand (prev_src : option ndarray)
| ClearOutputCommand
| BaseImageCommand (kind : ProcKind) (prev : option ndarray).

(** A command object: its identity ([oid], distinct for objects created by
    distinct constructor calls) and its attributes, which are never
    reassigned after [__init__]. *)
Record Command : Type := mk_Command {
  oid : nat;
  body : CommandBody
}.

Section Commands.
Context {sk : Skimage}.

Definition process (k : ProcKind) : ndarray -> result ndarray :=
  match k with
  | Grayscale => Rgb2GrayProcessor
  | Hsv => Rgb2HsvProcessor
  | MultiOtsu => MultiOtsuProcessor
  | ChanVese => ChanVeseProcessor
  | MorphSnakes => MorphSnakesProcessor
  | Roberts => RobertsProcessor
  | Sobel => SobelProcessor
  | Scharr => ScharrProcessor
  | Prewitt => PrewittProcessor
  end.

(** [proc.process(self.ctrl.img_source)].  With no source image every
    processor but the grayscale one starts with [image.ndim] and raises
    AttributeError; the grayscale one passes None to the library. *)
Definition process_source (k : ProcKind) (src : option ndarray) : result ndarray :=
  match src with
  | Some image => process k image
  | None =>
      match k with
      | Grayscale => Raise LibraryError
      | _ => Raise AttributeError
      end
  end.

(** The constructors ([__init__]). *)
Definition new_ClearSourceCommand (id : nat) (c : ctrl_state) : Command :=
  mk_Command id (ClearSourceCommand (img_source c)).

Definition new_ClearOutputCommand (id : nat) (c : ctrl_state) : Command :=
  mk_Command id ClearOutputCommand.

Definition new_BaseImageCommand (k : ProcKind) (id : nat) (c : ctrl_state) : Command :=
  mk_Command id (BaseImageCommand k (option_map copy (img_output c))).

Definition Command_execute (cmd : Command) (c : ctrl_state) : result unit * ctrl_state :=
  match body cmd with
  | ClearSourceCommand _ =>
      (Ok tt, set_lblSourceImage (set_img_source c None) None)
  | ClearOutputCommand =>
      (Ok tt, set_lblOutputImage (set_img_output c None) None)
  | BaseImageCommand k _ =>
      match process_source k (img_source c) with
      | Raise e => (Raise e, c)
      | Ok out => _show_image (Some out) LblOutputImage (set_img_output c (Some out))
      end
  end.

Definition Command_undo (cmd : Command) (c : ctrl_state) : result unit * ctrl_state :=
  match body cmd with
  | ClearSourceCommand prev_src =>
      _show_image prev_src LblSourceImage (set_img_source c prev_src)
  | ClearOutputCommand => (Ok tt, c)
  | BaseImageCommand _ prev =>
      _show_image prev LblOutputImage (set_img_output c prev)
  end.

#[export] Instance Command_ICommand : ICommand ctrl_state Command := {
  execute := Command_execute;
  undo := Command_undo
}.

End Commands.

#[export] Existing Instance Command_ICommand.

(** ** ui.py: the controller *)

Module MainWindowController.

(** The controller: the attributes commands touch, the [history] attribute,
    and the identity the next constructed object receives. *)
Record t : Type := mk {
  ctrl : ctrl_state;
  history : CommandHistory.t Command;
  next_oid : nat
}.

Definition _disable_output_controls (c : ctrl_state) : ctrl_state :=
  let w := widgets c in
  set_widgets c (mk_controls (enOpenSource w) (enSourceGroup w) false false false).

Definition _set_initial_state (c : ctrl_state) : ctrl_state :=
  let w := widgets c in
  let c := set_widgets c
             (mk_controls true (enSourceGroup w) (enOutputGroup w)
                          (enUndoOutput w) (enRedoOutput w)) in
  let c := _disable_output_controls c in
  let w := widgets c in
  set_widgets c
    (mk_controls (enOpenSource w) false (enOutputGroup w)
                 (enUndoOutput w) (enRedoOutput w)).

(** [bool(stack)] *)
Definition nonempty {A : Type} (l : list A) : bool :=
  match l with
  | [] => false
  | _ :: _ => true
  end.

Definition _update_undo_redo_buttons (h : CommandHistory.t Command) (c : ctrl_state)
  : ctrl_state :=
  let w := widgets c in
  set_widgets c
    (mk_controls (enOpenSource w) (enSourceGroup w) (enOutputGroup w)
                 (nonempty (CommandHistory._undo_stack h))
                 (nonempty (CommandHistory._redo_stack h))).

(** [__init__]: both slots empty, an empty history, then
    [_set_initial_state]. *)
Definition init : t :=
  mk (_set_initial_state
        (mk_ctrl None None None None None (mk_controls true true true true true)))
     CommandHistory.init 0.

Section Methods.
Context {sk : Skimage}.

(** [open_source].  [dialog] is what the file dialog and the loader give:
    [None] when no path is chosen, otherwise the path and the outcome of
    [open_image(path)].  The body is inside [try]; an exception ends it, is
    shown by [show_error] and does not leave the method. *)
Definition open_source (dialog : option (String.string * result ndarray)) (w : t)
  : result unit * t :=
  match dialog with
  | None => (Ok tt, w)
  | Some (_, Raise _) => (Ok tt, w)
  | Some (path, Ok img) =>
      let c := set_img_source (ctrl w) (Some img) in
      let c := set_source_path c (Some path) in
      match _show_image (img_source c) LblSourceImage c with
      | (Raise _, c) => (Ok tt, mk c (history w) (next_oid w))
      | (Ok _, c) =>
          let ws := widgets c in
          let c := set_widgets c
                     (mk_controls (enOpenSource ws) true (enOutputGroup ws)
                                  (enUndoOutput ws) (enRedoOutput ws)) in
          (Ok tt, mk (_disable_output_controls c) (history w) (next_oid w))
      end
  end.

(** [resizeEvent]: each slot that holds an image is shown again. *)
Definition resizeEvent (w : t) : result unit * t :=
  let c := ctrl w in
  match (match img_source c with
         | Some _ => _show_image (img_source c) LblSourceImage c
         | None => (Ok tt, c)
         end) with
  | (Raise e, c) => (Raise e, mk c (history w) (next_oid w))
  | (Ok _, c) =>
      match img_output c with
      | Some _ =>
          let (r, c) := _show_image (img_output c) LblOutputImage c in
          (r, mk c (history w) (next_oid w))
      | None => (Ok tt, mk c (history w) (next_oid w))
      end
  end.

Definition clear_source (w : t) : result unit * t :=
  let cmd := new_ClearSourceCommand (next_oid w) (ctrl w) in
  let n := S (next_oid w) in
  let h := CommandHistory.push (history w) cmd in
  match Command_execute cmd (ctrl w) with
  | (Raise e, c) => (Raise e, mk c h n)
  | (Ok _, c) =>
      let c := set_img_output c None in
      let c := set_lblOutputImage c None in
      let h := CommandHistory.mk [] (CommandHistory._redo_stack h) in
      let h := CommandHistory.mk (CommandHistory._undo_stack h) [] in
      let c := _disable_output_controls c in
      let c := _set_initial_state c in
      (Ok tt, mk c h n)
  end.

Definition clear_output (w : t) : result unit * t :=
  let cmd := new_ClearOutputCommand (next_oid w) (ctrl w) in
  let n := S (next_oid w) in
  let h := CommandHistory.push (history w) cmd in
  match Command_execute cmd (ctrl w) with
  | (Raise e, c) => (Raise e, mk c h n)
  | (Ok _, c) =>
      let h := CommandHistory.mk [] (CommandHistory._redo_stack h) in
      let h := CommandHistory.mk (CommandHistory._undo_stack h) [] in
      let c := _disable_output_controls c in
      (Ok tt, mk c h n)
  end.

Definition undo (w : t) : result unit * t :=
  match CommandHistory.undo (history w) (ctrl w) with
  | (Raise e, h, c) => (Raise e, mk c h (next_oid w))
  | (Ok _, h, c) =>
      let c := match img_output c with
               | None => _disable_output_controls c
               | Some _ => _update_undo_redo_buttons h c
               end in
      (Ok tt, mk c h (next_oid w))
  end.

Definition redo (w : t) : result unit * t :=
  match CommandHistory.redo (history w) (ctrl w) with
  | (Raise e, h, c) => (Raise e, mk c h (next_oid w))
  | (Ok _, h, c) =>
      let ws := widgets c in
      let en := match img_output c with
                | None => false
                | Some _ => nonempty (CommandHistory._redo_stack h)
                end in
      let c := set_widgets c
                 (mk_controls (enOpenSource ws) (enSourceGroup ws)
                              (enOutputGroup ws) (enUndoOutput ws) en) in
      (Ok tt, mk c h (next_oid w))
  end.

(** [_apply(CmdClass)] for the nine subclasses of [BaseImageCommand].  The
    assignment [self.img_output = cmd.ctrl.img_output] writes the slot with
    its own value, [cmd.ctrl] being the controller itself. *)
Definition _apply (k : ProcKind) (w : t) : result unit * t :=
  match img_source (ctrl w) with
  | None => (Ok tt, w)
  | Some _ =>
      let cmd := new_BaseImageCommand k (next_oid w) (ctrl w) in
      let n := S (next_oid w) in
      let h := CommandHistory.push (history w) cmd in
      match Command_execute cmd (ctrl w) with
      | (Raise e, c) => (Raise e, mk c h n)
      | (Ok _, c) =>
          let c := set_img_output c (img_output c) in
          let ws := widgets c in
          let c := set_widgets c
                     (mk_controls (enOpenSource ws) (enSourceGroup ws) true true
                                  (enRedoOutput ws)) in
          (Ok tt, mk (_update_undo_redo_buttons h c) h n)
      end
  end.

(** The user actions that change the controller, and the handler each one
    is connected to.  Saving and exporting write a file and change nothing
    in the controller. *)
Inductive event : Type :=
| Resize
| OpenSource (dialog : option (String.string * result ndarray))
| ClearSource
| ClearOutput
| Undo
| Redo
| Apply (k : ProcKind).

Definition handle (e : event) (w : t) : result unit * t :=
  match e with
  | Resize => resizeEvent w
  | OpenSource dialog => open_source dialog w
  | ClearSource => clear_source w
  | ClearOutput => clear_output w
  | Undo => undo w
  | Redo => redo w
  | Apply k => _apply k w
  end.

(** The states of a controller: the one [__init__] builds, and the state any
    handler leaves, also when it leaves by an exception. *)
Inductive reachable : t -> Prop :=
| reachable_init : reachable init
| reachable_step (e : event) (w : t) :
    reachable w -> reachable (snd (handle e w)).

(** The states a run of events goes through. *)
Fixpoint run (es : list event) (w : t) : t :=
  match es with
  | [] => w
  | e :: es' => run es' (snd (handle e w))
  end.

End Methods.
End MainWindowController.

(** ** Notions used in the statements *)

Section HistoryRuns.
Context {W C : Type} {IC : ICommand W C}.

(** Calls on a history, and their effect on the history and the world when
    the caller goes on after an exception. *)
Inductive hist_op : Type :=
| HPush (cmd : C)
| HUndo
| HRedo.

Definition hist_step (op : hist_op) (s : CommandHistory.t C * W)
  : CommandHistory.t C * W :=
  match op with
  | HPush cmd => (CommandHistory.push (fst s) cmd, snd s)
  | HUndo => let '(_, h, w) := CommandHistory.undo (fst s) (snd s) in (h, w)
  | HRedo => let '(_, h, w) := CommandHistory.redo (fst s) (snd s) in (h, w)
  end.

Fixpoint hist_run (ops : list hist_op) (s : CommandHistory.t C * W)
  : CommandHistory.t C * W :=
  match ops with
  | [] => s
  | op :: ops' => hist_run ops' (hist_step op s)
  end.

(** The commands on the two stacks. *)
Definition stacked (h : CommandHistory.t C) : list C :=
  CommandHistory._undo_stack h ++ CommandHistory._redo_stack h.

(** A list that is another one rearranged, or rearranged with one element
    taken out. *)
Definition shrinks (l' l : list C) : Prop :=
  Permutation l' l \/ exists x, Permutation (x :: l') l.

End HistoryRuns.

(** No command object is on both stacks: an object on the undo stack and an
    object on the redo stack are never the same object. *)
Definition on_at_most_one_stack (h : CommandHistory.t Command) : Prop :=
  forall c1 c2 : Command,
    In c1 (CommandHistory._undo_stack h) ->
    In c2 (CommandHistory._redo_stack h) ->
    oid c1 <> oid c2.

(** The invariant of the controller's history: the objects on the two stacks
    are pairwise distinct, and all were created before now. *)
Definition history_inv (w : MainWindowController.t) : Prop :=
  NoDup (map oid (stacked (MainWindowController.history w))) /\
  Forall (fun c => (oid c < MainWindowController.next_oid w)%nat)
         (stacked (MainWindowController.history w)).

(** *** Concrete inputs *)

(** A library instance for the examples: [threshold_multiotsu] returns the
    thresholds 0 and 100 (for an image with as many distinct values as
    classes, such as [gray_0_100_200] below, scikit-image returns the values
    but the largest); every other routine raises. *)
Definition skimage_example : Skimage := {|
  rgb2gray := fun _ => None;
  rgb2hsv := fun _ => None;
  threshold_otsu := fun _ => None;
  threshold_multiotsu := fun _ => Some (0, 100);
  chan_vese := fun _ => None;
  morphological_chan_vese := fun _ => None;
  roberts := fun _ => None;
  sobel := fun _ => None;
  scharr := fun _ => None;
  prewitt := fun _ => None
|}.

(** A 1x3 8-bit grayscale image. *)
Definition gray_0_100_200 : ndarray :=
  mk_ndarray uint8 [1%nat; 3%nat] [0; 100; 200].

(** A controller with [gray_0_100_200] as its source and no output. *)
Definition ctrl_loaded : ctrl_state :=
  mk_ctrl (Some gray_0_100_200) None None None None
          (mk_controls true true false false false).

(** A controller with a source and an output. *)
Definition ctrl_with_output : ctrl_state :=
  mk_ctrl (Some gray_0_100_200) (Some gray_0_100_200) None None
          (Some gray_0_100_200) (mk_controls true true true true false).

(** The file dialog returning a path at which the loader reads
    [gray_0_100_200]. *)
Definition open_gray : MainWindowController.event :=
  MainWindowController.OpenSource (Some ("a.png"%string, Ok gray_0_100_200)).

(** A second library instance for the examples: the edge operators return
    their input as the response, [threshold_otsu] returns one half,
    [threshold_multiotsu] the thresholds 50 and 150, the segmentations a mask
    that is true everywhere; the colour conversions raise. *)
Definition skimage_example2 : Skimage := {|
  rgb2gray := fun _ => None;
  rgb2hsv := fun _ => None;
  threshold_otsu := fun _ => Some (1 # 2);
  threshold_multiotsu := fun _ => Some (50, 150);
  chan_vese := fun a => Some (map (fun _ => true) (data a));
  morphological_chan_vese := fun a => Some (map (fun _ => true) (data a));
  roberts := fun a => Some a;
  sobel := fun a => Some a;
  scharr := fun a => Some a;
  prewitt := fun a => Some a
|}.

(** A uniform 1x3 8-bit image. *)
Definition gray_uniform_128 : ndarray :=
  mk_ndarray uint8 [1%nat; 3%nat] [128; 128; 128].

(** *** Notions for the further properties *)

(** A sample in the 8-bit range that the conversion to uint8 keeps as it is
    but for its fractional part: the integer part of a rational between 0
    and 255. *)
Definition unwrapped_byte (y : Q) : Prop :=
  exists x : Q, 0 <= x <= 255 /\ y = inject_Z (Qfloor x) /\
                (0 <= Qfloor x <= 255)%Z.

(** The commands built by [_apply]. *)
Definition is_image_command (cmd : Command) : Prop :=
  match body cmd with
  | BaseImageCommand _ _ => True
  | _ => False
  end.

(** Without a source image there is no output and no history, and the
    history holds image commands only. *)
Definition source_inv (w : MainWindowController.t) : Prop :=
  Forall is_image_command (stacked (MainWindowController.history w)) /\
  (img_source (MainWindowController.ctrl w) = None ->
   img_output (MainWindowController.ctrl w) = None /\
   stacked (MainWindowController.history w) = []).

(** A controller state whose output label shows its output image. *)
Definition output_shown (c : ctrl_state) (p buf : ndarray) : Prop :=
  img_output c = Some p /\ show_buffer p = Ok buf /\ lblOutputImage c = Some buf.

(** * Properties *)

(** ** Lists used as stacks *)

Lemma pop_app {A : Type} (l : list A) (x : A) : pop (l ++ [x]) = Some (l, x).
Proof.
  induction l as [|y l IH]; simpl.
  - reflexivity.
  - rewrite IH. reflexivity.
Qed.

Lemma pop_nil_inv {A : Type} (l : list A) : pop l = None -> l = [].
Proof.
  destruct l as [|x t]; simpl; [reflexivity|].
  destruct (pop t) as [[r y]|]; discriminate.
Qed.

Lemma pop_some_inv {A : Type} (l r : list A) (x : A) :
  pop l = Some (r, x) -> l = r ++ [x].
Proof.
  revert r; induction l as [|y t IH]; intros r; simpl; [discriminate|].
  destruct (pop t) as [[r' z]|] eqn:E.
  - intros H; injection H as <- <-. rewrite (IH r' eq_refl). reflexivity.
  - intros H; injection H as <- <-. rewrite (pop_nil_inv t E). reflexivity.
Qed.

(** ** The history over any commands *)

Section HistoryFacts.
Context {W C : Type} {IC : ICommand W C}.

Lemma undo_empty (h : CommandHistory.t C) (w : W) :
  CommandHistory._undo_stack h = [] ->
  CommandHistory.undo h w = (Ok tt, h, w).
Proof.
  intros E. unfold CommandHistory.undo. rewrite E. reflexivity.
Qed.

Lemma redo_empty (h : CommandHistory.t C) (w : W) :
  CommandHistory._redo_stack h = [] ->
  CommandHistory.redo h w = (Ok tt, h, w).
Proof.
  intros E. unfold CommandHistory.redo. rewrite E. reflexivity.
Qed.

Lemma undo_tail (h : CommandHistory.t C) (w : W) (rest : list C) (cmd : C) :
  CommandHistory._undo_stack h = rest ++ [cmd] ->
  CommandHistory.undo h w =
    match undo cmd w with
    | (Ok _, w1) =>
        (Ok tt, CommandHistory.mk rest (CommandHistory._redo_stack h ++ [cmd]), w1)
    | (Raise e, w1) =>
        (Raise e, CommandHistory.mk rest (CommandHistory._redo_stack h), w1)
    end.
Proof.
  intros E. unfold CommandHistory.undo. rewrite E, pop_app.
  destruct (undo cmd w) as [[u|e] w1]; reflexivity.
Qed.

Lemma redo_tail (h : CommandHistory.t C) (w : W) (rest : list C) (cmd : C) :
  CommandHistory._redo_stack h = rest ++ [cmd] ->
  CommandHistory.redo h w =
    match execute cmd w with
    | (Ok _, w1) =>
        (Ok tt, CommandHistory.mk (CommandHistory._undo_stack h ++ [cmd]) rest, w1)
    | (Raise e, w1) =>
        (Raise e, CommandHistory.mk (CommandHistory._undo_stack h) rest, w1)
    end.
Proof.
  intros E. unfold CommandHistory.redo. rewrite E, pop_app.
  destruct (execute cmd w) as [[u|e] w1]; reflexivity.
Qed.

(** Undo and redo put no new command on the stacks. *)
Lemma undo_stacked (h : CommandHistory.t C) (w : W) (x : C) :
  In x (stacked (snd (fst (CommandHistory.undo h w)))) -> In x (stacked h).
Proof.
  unfold stacked, CommandHistory.undo.
  destruct (pop (CommandHistory._undo_stack h)) as [[rest cmd]|] eqn:E.
  - apply pop_some_inv in E. rewrite E.
    destruct (undo cmd w) as [[u|e] w1]; simpl;
      rewrite !in_app_iff; simpl; tauto.
  - simpl. tauto.
Qed.

Lemma redo_stacked (h : CommandHistory.t C) (w : W) (x : C) :
  In x (stacked (snd (fst (CommandHistory.redo h w)))) -> In x (stacked h).
Proof.
  unfold stacked, CommandHistory.redo.
  destruct (pop (CommandHistory._redo_stack h)) as [[rest cmd]|] eqn:E.
  - apply pop_some_inv in E. rewrite E.
    destruct (execute cmd w) as [[u|e] w1]; simpl;
      rewrite !in_app_iff; simpl; tauto.
  - simpl. tauto.
Qed.

(** A command that is on no stack and is not pushed again stays off both
    stacks, whatever is called on the history. *)
Lemma hist_run_absent (a : C) (ops : list (hist_op (C := C)))
      (s : CommandHistory.t C * W) :
  ~ In (HPush a) ops ->
  ~ In a (stacked (fst s)) ->
  ~ In a (stacked (fst (hist_run ops s))).
Proof.
  revert s; induction ops as [|op ops IH]; intros s Hops Hs; simpl.
  - exact Hs.
  - apply IH.
    + intros H; apply Hops; right; exact H.
    + destruct op as [c| |]; simpl.
      * unfold stacked, CommandHistory.push; simpl.
        rewrite app_nil_r, in_app_iff; simpl.
        intros [H|[H|[]]].
        -- apply Hs. unfold stacked. rewrite in_app_iff. left; exact H.
        -- apply Hops. left. rewrite H. reflexivity.
      * intros H. apply Hs.
        apply (undo_stacked (fst s) (snd s)).
        destruct (CommandHistory.undo (fst s) (snd s)) as [[r h] w]. exact H.
      * intros H. apply Hs.
        apply (redo_stacked (fst s) (snd s)).
        destruct (CommandHistory.redo (fst s) (snd s)) as [[r h] w]. exact H.
Qed.

End HistoryFacts.

(** C1.  [CommandHistory.push] appends the command to the undo stack and
    leaves the redo stack empty, whatever it held.  After the calls
    [push(a); undo(); push(b)] the redo stack is empty and [redo()] changes
    nothing and raises nothing; and when [a] is a command that was not
    already on the undo stack and is not [b], it is on neither stack then
    and on neither stack after any further calls that do not push it
    again. *)
Theorem C1_push_empties_redo_stack
    {W C : Type} {IC : ICommand W C}
    (h : CommandHistory.t C) (a b : C) (w : W) :
  (CommandHistory._undo_stack (CommandHistory.push h a)
     = CommandHistory._undo_stack h ++ [a]
   /\ CommandHistory._redo_stack (CommandHistory.push h a) = []) /\
  let s := hist_run [HPush a; HUndo; HPush b] (h, w) in
  CommandHistory._redo_stack (fst s) = [] /\
  CommandHistory.redo (fst s) (snd s) = (Ok tt, fst s, snd s) /\
  (~ In a (CommandHistory._undo_stack h) -> a <> b ->
   forall ops : list hist_op,
     ~ In (HPush a) ops ->
     ~ In a (stacked (fst (hist_run ops s)))).
Proof.
  split; [split; reflexivity|].
  intros s.
  assert (Hredo : CommandHistory._redo_stack (fst s) = []).
  { subst s. simpl.
    destruct (CommandHistory.undo (CommandHistory.push h a) w) as [[r h1] w1].
    reflexivity. }
  split; [exact Hredo|].
  split; [apply redo_empty; exact Hredo|].
  intros Hfresh Hab ops Hops.
  apply hist_run_absent; [exact Hops|].
  subst s. simpl.
  rewrite (undo_tail (CommandHistory.push h a) w (CommandHistory._undo_stack h) a eq_refl).
  destruct (undo a w) as [[u|e] w1]; simpl;
    unfold stacked; simpl; rewrite app_nil_r, in_app_iff; simpl;
    intros [H|[H|[]]]; auto.
Qed.

(** C4.  [CommandHistory.undo] with an empty undo stack returns normally and
    changes neither the history nor the world; with tail command [cmd] it
    removes [cmd] from the undo stack, calls [cmd.undo()] and, when that
    returns, appends [cmd] to the redo stack (when it raises, the exception
    leaves [undo] with [cmd] removed).  [CommandHistory.redo] does the same
    with the redo stack, [cmd.execute()] and the undo stack. *)
Theorem C4_undo_redo_noop_or_move
    {W C : Type} {IC : ICommand W C} (h : CommandHistory.t C) (w : W) :
  (CommandHistory._undo_stack h = [] ->
   CommandHistory.undo h w = (Ok tt, h, w)) /\
  (forall rest cmd, CommandHistory._undo_stack h = rest ++ [cmd] ->
   CommandHistory.undo h w =
     match undo cmd w with
     | (Ok _, w1) =>
         (Ok tt, CommandHistory.mk rest (CommandHistory._redo_stack h ++ [cmd]), w1)
     | (Raise e, w1) =>
         (Raise e, CommandHistory.mk rest (CommandHistory._redo_stack h), w1)
     end) /\
  (CommandHistory._redo_stack h = [] ->
   CommandHistory.redo h w = (Ok tt, h, w)) /\
  (forall rest cmd, CommandHistory._redo_stack h = rest ++ [cmd] ->
   CommandHistory.redo h w =
     match execute cmd w with
     | (Ok _, w1) =>
         (Ok tt, CommandHistory.mk (CommandHistory._undo_stack h ++ [cmd]) rest, w1)
     | (Raise e, w1) =>
         (Raise e, CommandHistory.mk (CommandHistory._undo_stack h) rest, w1)
     end).
Proof.
  repeat split.
  - apply undo_empty.
  - intros rest cmd. apply undo_tail.
  - apply redo_empty.
  - intros rest cmd. apply redo_tail.
Qed.

(** ** Array arithmetic *)

Lemma fold_min_le (t : list Q) (x : Q) :
  fold_left Qmin t x <= x /\ forall y, In y t -> fold_left Qmin t x <= y.
Proof.
  revert x; induction t as [|z t IH]; intros x; simpl.
  - split; [apply Qle_refl | intros y []].
  - destruct (IH (Qmin x z)) as [H1 H2]. split.
    + eapply Qle_trans; [exact H1 | apply Q.le_min_l].
    + intros y [<-|Hy].
      * eapply Qle_trans; [exact H1 | apply Q.le_min_r].
      * apply H2; exact Hy.
Qed.

Lemma fold_min_attained (t : list Q) (x : Q) :
  exists y, In y (x :: t) /\ fold_left Qmin t x == y.
Proof.
  revert x; induction t as [|z t IH]; intros x; simpl.
  - exists x. split; [left; reflexivity | reflexivity].
  - destruct (IH (Qmin x z)) as [y [[Hy|Hy] E]].
    + destruct (Q.min_spec_le x z) as [[_ Hm]|[_ Hm]].
      * exists x. split; [left; reflexivity|].
        rewrite E, <- Hy. exact Hm.
      * exists z. split; [right; left; reflexivity|].
        rewrite E, <- Hy. exact Hm.
    + exists y. split; [right; right; exact Hy | exact E].
Qed.

Lemma np_min_spec (l : list Q) (m : Q) :
  np_min l = Ok m ->
  (forall y, In y l -> m <= y) /\ exists y, In y l /\ m == y.
Proof.
  destruct l as [|x t]; simpl; [discriminate|].
  intros H; injection H as <-. split.
  - intros y [<-|Hy];
      [exact (proj1 (fold_min_le t x)) | exact (proj2 (fold_min_le t x) y Hy)].
  - apply fold_min_attained.
Qed.

Lemma np_min_map (f : Q -> Q) (l : list Q) (m : Q) :
  np_min l = Ok m -> exists m', np_min (map f l) = Ok m'.
Proof.
  destruct l as [|x t]; simpl; [discriminate|].
  intros _. eexists; reflexivity.
Qed.

Lemma Qltb_pos_nonzero (d : Q) : Qltb 0 d = true -> Qeq_bool d 0 = false.
Proof.
  unfold Qltb. intros H.
  destruct (Qeq_bool d 0) eqn:E; [|reflexivity].
  apply Qeq_bool_iff in E.
  assert (L : Qle_bool d 0 = true) by (apply Qle_bool_iff; rewrite E; apply Qle_refl).
  rewrite L in H. discriminate.
Qed.

Lemma np_div_pos (l : list Q) (d : Q) :
  Qltb 0 d = true -> np_div l d = Ok (map (fun x => x / d) l).
Proof.
  intros H. unfold np_div. rewrite (Qltb_pos_nonzero d H). reflexivity.
Qed.

Lemma Qltb_zero_false (x : Q) : x == 0 -> Qltb 0 x = false.
Proof.
  intros E. unfold Qltb.
  assert (L : Qle_bool x 0 = true) by (apply Qle_bool_iff; rewrite E; apply Qle_refl).
  rewrite L. reflexivity.
Qed.

(** ** The emphasize filter *)

Section EmphasizeFacts.
Context {sk : Skimage}.

Lemma emphasize_shift_min (l s : list Q) :
  emphasize_shift l = Ok s ->
  exists m, np_min s = Ok m /\ m == 0.
Proof.
  unfold emphasize_shift.
  destruct (np_min l) as [m|e] eqn:E; simpl; [|discriminate].
  intros H; injection H as <-.
  destruct (np_min_map (fun x => x - m) l m E) as [m' E'].
  exists m'. split; [exact E'|].
  destruct (np_min_spec l m E) as [Hlow [y [Hy Hmy]]].
  destruct (np_min_spec _ m' E') as [Hlow' [y' [Hy' Hmy']]].
  apply Qle_antisym.
  - assert (Hin : In (y - m) (np_sub l m))
      by (exact (in_map (fun x => x - m) l y Hy)).
    eapply Qle_trans; [apply Hlow'; exact Hin|].
    rewrite Hmy. unfold Qminus. rewrite Qplus_opp_r. apply Qle_refl.
  - rewrite Hmy'. apply in_map_iff in Hy'. destruct Hy' as [x [<- Hx]].
    unfold Qminus. rewrite <- Qle_minus_iff. apply Hlow; exact Hx.
Qed.

Lemma emphasize_normalize_no_zero_division (l : list Q) :
  emphasize_normalize l <> Raise DivideByZero.
Proof.
  unfold emphasize_normalize.
  destruct (np_max l) as [mx|e] eqn:E; simpl.
  - destruct (Qltb 0 mx) eqn:G; simpl; [|discriminate].
    rewrite (np_div_pos l mx G). discriminate.
  - destruct l; simpl in E; [injection E as <-; discriminate | discriminate].
Qed.

Lemma emphasize_rescale_no_zero_division (l : list Q) (thr : Q) :
  emphasize_rescale l thr <> Raise DivideByZero.
Proof.
  unfold emphasize_rescale.
  destruct (Qltb 0 (1 - thr)) eqn:G; [|discriminate].
  rewrite (np_div_pos _ _ G). discriminate.
Qed.

Lemma emphasize_shift_no_zero_division (l : list Q) :
  emphasize_shift l <> Raise DivideByZero.
Proof.
  destruct l; simpl; discriminate.
Qed.

Lemma edge_emphasize_no_zero_division (res : ndarray) :
  _edge_emphasize res <> Raise DivideByZero.
Proof.
  unfold _edge_emphasize.
  destruct (emphasize_shift (data res)) as [s|e] eqn:E1; simpl.
  2:{ intros H; injection H as ->. exact (emphasize_shift_no_zero_division _ E1). }
  destruct (emphasize_normalize s) as [n|e] eqn:E2; simpl.
  2:{ intros H; injection H as ->. exact (emphasize_normalize_no_zero_division _ E2). }
  destruct (threshold_otsu _) as [thr|]; simpl; [|discriminate].
  destruct (emphasize_rescale n thr) as [o|e] eqn:E3; simpl.
  2:{ intros H; injection H as ->. exact (emphasize_rescale_no_zero_division _ _ E3). }
  discriminate.
Qed.

End EmphasizeFacts.

(** C9.  [_edge_emphasize] performs no division by zero, for every edge
    response and every threshold the library returns.  Its first step leaves
    a response whose minimum is 0; the normalization step returns its input
    as it is when the maximum is 0; the rescaling step returns the normalized
    response as it is when the threshold is 1.  Each of the four edge
    processors is: grayscale if 3-dimensional, the operator of the library,
    then [_edge_emphasize]. *)
Theorem C9_edge_emphasize_never_divides_by_zero {sk : Skimage} :
  (forall res : ndarray, _edge_emphasize res <> Raise DivideByZero) /\
  (forall l s : list Q, emphasize_shift l = Ok s ->
     exists m, np_min s = Ok m /\ m == 0) /\
  (forall (l : list Q) (mx : Q), np_max l = Ok mx -> mx == 0 ->
     emphasize_normalize l = Ok l) /\
  (forall (l : list Q) (thr : Q), thr == 1 -> emphasize_rescale l thr = Ok l) /\
  (forall image : ndarray,
     RobertsProcessor image
       = (gray <- to_gray image ;; res <- lib (roberts gray) ;; _edge_emphasize res) /\
     SobelProcessor image
       = (gray <- to_gray image ;; res <- lib (sobel gray) ;; _edge_emphasize res) /\
     ScharrProcessor image
       = (gray <- to_gray image ;; res <- lib (scharr gray) ;; _edge_emphasize res) /\
     PrewittProcessor image
       = (gray <- to_gray image ;; res <- lib (prewitt gray) ;; _edge_emphasize res)).
Proof.
  split; [exact edge_emphasize_no_zero_division|].
  split; [exact emphasize_shift_min|].
  split.
  { intros l mx E Hz. unfold emphasize_normalize. rewrite E. simpl.
    rewrite (Qltb_zero_false mx Hz). reflexivity. }
  split.
  { intros l thr Hthr. unfold emphasize_rescale.
    rewrite Qltb_zero_false; [reflexivity|].
    rewrite Hthr. reflexivity. }
  intros image. repeat split.
Qed.

(** ** The processors *)

Lemma fold_maxZ_spec (t : list Z) (x : Z) :
  In (fold_left Z.max t x) (x :: t) /\
  forall y, In y (x :: t) -> (y <= fold_left Z.max t x)%Z.
Proof.
  revert x; induction t as [|z t IH]; intros x; simpl.
  - split; [left; reflexivity | intros y [<-|[]]; lia].
  - destruct (IH (Z.max x z)) as [Hin Hub]. split.
    + destruct Hin as [Hin|Hin]; [|right; right; exact Hin].
      rewrite <- Hin. destruct (Z.max_spec x z) as [[_ ->]|[_ ->]]; auto.
    + intros y [E|[E|Hy]].
      * specialize (Hub (Z.max x z) (or_introl eq_refl)). lia.
      * specialize (Hub (Z.max x z) (or_introl eq_refl)). lia.
      * apply Hub. right; exact Hy.
Qed.

Lemma np_maxZ_spec (l : list Z) (m : Z) :
  np_maxZ l = Ok m -> In m l /\ forall y, In y l -> (y <= m)%Z.
Proof.
  destruct l as [|x t]; simpl; [discriminate|].
  intros H; injection H as <-. apply fold_maxZ_spec.
Qed.

(** With two bins a class index is 0, 1 or 2. *)
Lemma digitize1_two_bins (t1 t2 x : Q) :
  (0 <= digitize1 [t1; t2] x <= 2)%Z.
Proof.
  unfold digitize1, count; simpl.
  destruct (Qle_bool t1 t2 && true);
    destruct (Qle_bool t1 x), (Qle_bool t2 x); simpl; lia.
Qed.

(** Two bins are always accepted by [np.digitize]: they are non-decreasing
    or non-increasing. *)
Lemma digitize_two_bins (l : list Q) (t1 t2 : Q) :
  digitize l [t1; t2] = Ok (map (digitize1 [t1; t2]) l).
Proof.
  unfold digitize; simpl.
  destruct (Qle_bool t1 t2) eqn:E1; simpl; [reflexivity|].
  destruct (Qle_bool t2 t1) eqn:E2; simpl; [reflexivity|].
  exfalso.
  assert (H1 : ~ t1 <= t2) by (rewrite <- Qle_bool_iff, E1; discriminate).
  assert (H2 : ~ t2 <= t1) by (rewrite <- Qle_bool_iff, E2; discriminate).
  apply Qnot_le_lt in H1. apply H2. apply Qlt_le_weak. exact H1.
Qed.


(** What [MultiOtsuProcessor] returns, for any library: every pixel is given
    a class index 0, 1 or 2 by the two thresholds, and class [k] is written
    as [k * (255 // m)] reduced to 8 bits, [m] being the largest class index
    present. *)
Lemma MultiOtsuProcessor_output {sk : Skimage} (image out : ndarray) :
  MultiOtsuProcessor image = Ok out ->
  exists gray t classes m,
    to_gray image = Ok gray /\
    threshold_multiotsu gray = Some t /\
    classes = map (digitize1 [fst t; snd t]) (data gray) /\
    Forall (fun k => 0 <= k <= 2)%Z classes /\
    In m classes /\ (forall k, In k classes -> (k <= m)%Z) /\
    out = mk_ndarray uint8 (shape gray) (map (multiotsu_scale m) classes).
Proof.
  unfold MultiOtsuProcessor.
  destruct (to_gray image) as [gray|e] eqn:Eg; simpl; [|discriminate].
  destruct (threshold_multiotsu gray) as [t|] eqn:Et; simpl; [|discriminate].
  unfold multiotsu_classes. rewrite digitize_two_bins. simpl.
  destruct (np_maxZ _) as [m|e] eqn:Em; simpl; [|discriminate].
  intros H; injection H as <-.
  destruct (np_maxZ_spec _ _ Em) as [Hin Hub].
  exists gray, t, (map (digitize1 [fst t; snd t]) (data gray)), m.
  repeat split; auto.
  apply Forall_forall. intros k Hk. apply in_map_iff in Hk.
  destruct Hk as [x [<- _]]. apply digitize1_two_bins.
Qed.

(** Whatever the thresholds, once a pixel is in class 2 the output holds only
    0, 127 and 254, and it holds 254: no pixel is written as 255. *)
Lemma MultiOtsuProcessor_three_classes {sk : Skimage} (image out gray : ndarray)
      (t : Q * Q) :
  MultiOtsuProcessor image = Ok out ->
  to_gray image = Ok gray ->
  threshold_multiotsu gray = Some t ->
  In 2%Z (map (digitize1 [fst t; snd t]) (data gray)) ->
  Forall (fun v => v = 0 \/ v = 127 \/ v = 254) (data out) /\ In 254 (data out).
Proof.
  intros Hout Hg Ht H2.
  destruct (MultiOtsuProcessor_output image out Hout)
    as (gray' & t' & classes & m & Hg' & Ht' & Hc & Hr & Hin & Hub & ->).
  rewrite Hg in Hg'. injection Hg' as <-.
  rewrite Ht in Ht'. injection Ht' as <-.
  subst classes.
  assert (Hm : m = 2%Z).
  { rewrite Forall_forall in Hr. specialize (Hr m Hin). simpl in Hr.
    specialize (Hub 2%Z H2). lia. }
  subst m. simpl. split.
  - apply Forall_forall. intros v Hv. apply in_map_iff in Hv.
    destruct Hv as [k [<- Hk]].
    rewrite Forall_forall in Hr. specialize (Hr k Hk). simpl in Hr.
    assert (C : k = 0%Z \/ k = 1%Z \/ k = 2%Z) by lia.
    destruct C as [ -> | [ -> | -> ] ]; auto.
  - change 254 with (multiotsu_scale 2 2). apply in_map. exact H2.
Qed.

(** C5.  On the 8-bit image with the three values 0, 100 and 200 and the
    thresholds 0 and 100, the classes are 1, 2, 2 and
    [MultiOtsuProcessor] returns 127, 254, 254: the top class present, 2, is
    written as 254, because the factor is the floored quotient [255 // 2 =
    127].  The top class is written as 255 only when it is 1. *)
Theorem C5_multiotsu_top_class_is_254 :
  MultiOtsuProcessor (sk := skimage_example) gray_0_100_200
    = Ok (mk_ndarray uint8 [1%nat; 3%nat] [127; 254; 254]) /\
  multiotsu_classes gray_0_100_200 (0, 100) = Ok [1%Z; 2%Z; 2%Z] /\
  np_floordiv 255 2 = 127%Z /\
  multiotsu_scale 2 2 = 254 /\
  multiotsu_scale 1 1 = 255 /\
  multiotsu_scale 0 0 = 0.
Proof.
  repeat split; vm_compute; reflexivity.
Qed.

(** C6.  An image that is not 3-dimensional, or whose third dimension is not
    3, is returned by [Rgb2HsvProcessor] as it is, without a call to the
    library and without an exception. *)
Theorem C6_hsv_returns_non_rgb_input {sk : Skimage} (image : ndarray) :
  ndim image <> 3%nat \/ nth 2 (shape image) 0%nat <> 3%nat ->
  Rgb2HsvProcessor image = Ok image.
Proof.
  intros H. unfold Rgb2HsvProcessor.
  destruct (Nat.eqb (ndim image) 3) eqn:E1; simpl; [|reflexivity].
  destruct (Nat.eqb (nth 2 (shape image) 0%nat) 3) eqn:E2; simpl; [|reflexivity].
  apply Nat.eqb_eq in E1, E2. destruct H as [H|H]; contradiction.
Qed.

(** ** The commands *)

Section CommandFacts.
Context {sk : Skimage}.

(** Undo of an image command writes the snapshot into the output slot,
    whether or not the display refresh that follows raises. *)
Lemma image_command_undo_slot (id : nat) (k : ProcKind) (prev : option ndarray)
      (c : ctrl_state) :
  img_output (snd (Command_undo (mk_Command id (BaseImageCommand k prev)) c)) = prev.
Proof.
  unfold Command_undo, _show_image; simpl.
  destruct prev as [p|]; [|reflexivity].
  destruct (show_buffer p); reflexivity.
Qed.

(** With a snapshot that can be shown, undo returns normally, the output
    slot holds the snapshot and the output label shows it. *)
Lemma image_command_undo_shown (id : nat) (k : ProcKind) (p buf : ndarray)
      (c : ctrl_state) :
  show_buffer p = Ok buf ->
  Command_undo (mk_Command id (BaseImageCommand k (Some p))) c
    = (Ok tt, set_lblOutputImage (set_img_output c (Some p)) (Some buf)).
Proof.
  intros E. unfold Command_undo, _show_image; simpl. rewrite E. reflexivity.
Qed.

(** With the empty snapshot, undo writes None into the output slot and then
    raises AttributeError in [_show_image]; the output label is not
    touched. *)
Lemma image_command_undo_empty (id : nat) (k : ProcKind) (c : ctrl_state) :
  Command_undo (mk_Command id (BaseImageCommand k None)) c
    = (Raise AttributeError, set_img_output c None).
Proof. reflexivity. Qed.

(** So the undo of any image command built while there was no output
    raises, in whatever state it is called. *)
Lemma image_command_first_undo_raises (id : nat) (k : ProcKind)
      (c c' : ctrl_state) :
  img_output c = None ->
  Command_undo (new_BaseImageCommand k id c) c'
    = (Raise AttributeError, set_img_output c' None).
Proof.
  intros E. unfold new_BaseImageCommand. rewrite E. reflexivity.
Qed.

(** Execute then undo of an image command built on state [c]: the output
    slot holds again what it held in [c]. *)
Lemma image_command_execute_undo_slot (id : nat) (k : ProcKind) (c : ctrl_state) :
  let cmd := new_BaseImageCommand k id c in
  img_output (snd (Command_undo cmd (snd (Command_execute cmd c)))) = img_output c.
Proof.
  simpl. unfold new_BaseImageCommand. rewrite image_command_undo_slot.
  destruct (img_output c); reflexivity.
Qed.

End CommandFacts.

(** C2.  With no output yet ([ctrl_loaded]), an HSV command is built (its
    snapshot is the empty one) and executed: it returns normally and the
    output slot holds the image.  Its undo then writes None into the output
    slot and raises AttributeError, and the output label still shows the
    executed image.  Through the window: after opening the image and applying
    HSV, the undo handler raises AttributeError and the command is left on
    neither stack. *)
Theorem C2_undo_with_empty_snapshot_raises :
  let cmd := new_BaseImageCommand Hsv 0 ctrl_loaded in
  let c1 := snd (Command_execute (sk := skimage_example) cmd ctrl_loaded) in
  let w := MainWindowController.run (sk := skimage_example)
             [open_gray; MainWindowController.Apply Hsv]
             MainWindowController.init in
  let w' := snd (MainWindowController.handle (sk := skimage_example)
                   MainWindowController.Undo w) in
  img_output ctrl_loaded = None /\
  body cmd = BaseImageCommand Hsv None /\
  fst (Command_execute (sk := skimage_example) cmd ctrl_loaded) = Ok tt /\
  img_output c1 = Some gray_0_100_200 /\
  Command_undo cmd c1 = (Raise AttributeError, set_img_output c1 None) /\
  lblOutputImage (snd (Command_undo cmd c1)) = lblOutputImage c1 /\
  lblOutputImage c1 <> None /\
  fst (MainWindowController.handle (sk := skimage_example)
         MainWindowController.Undo w) = Raise AttributeError /\
  CommandHistory._undo_stack (MainWindowController.history w') = [] /\
  CommandHistory._redo_stack (MainWindowController.history w') = [].
Proof.
  repeat split; try reflexivity. vm_compute. discriminate.
Qed.

(** C7.  [ClearOutputCommand.execute] returns normally and leaves the output
    slot and the output label empty; [ClearOutputCommand.undo] then returns
    normally and changes nothing, so the output stays empty. *)
Theorem C7_clear_output_not_reversible
    {sk : Skimage} (id : nat) (c : ctrl_state) :
  let cmd := new_ClearOutputCommand id c in
  let c1 := snd (Command_execute cmd c) in
  fst (Command_execute cmd c) = Ok tt /\
  img_output c1 = None /\
  lblOutputImage c1 = None /\
  Command_undo cmd c1 = (Ok tt, c1) /\
  img_output (snd (Command_undo cmd c1)) = None.
Proof.
  repeat split.
Qed.

(** C8.  [ClearSourceCommand.execute] returns normally and leaves the source
    slot empty, in every state of the controller.  [undo] after it writes
    into the source slot what the slot held when the command was built; when
    that is an image that can be shown, [undo] returns normally and the
    source label shows the image. *)
Theorem C8_clear_source_reversible
    {sk : Skimage} (id : nat) (c : ctrl_state) :
  let cmd := new_ClearSourceCommand id c in
  let c1 := snd (Command_execute cmd c) in
  fst (Command_execute cmd c) = Ok tt /\
  img_source c1 = None /\
  img_source (snd (Command_undo cmd c1)) = img_source c /\
  (forall image buf : ndarray,
     img_source c = Some image -> show_buffer image = Ok buf ->
     Command_undo cmd c1
       = (Ok tt, set_lblSourceImage (set_img_source c1 (Some image)) (Some buf))).
Proof.
  simpl. repeat split.
  - unfold Command_undo, _show_image; simpl.
    destruct (img_source c) as [p|]; [|reflexivity].
    destruct (show_buffer p); reflexivity.
  - intros image buf E1 E2.
    unfold Command_undo, _show_image; simpl. rewrite E1, E2. reflexivity.
Qed.

(** C10.  [clear_source] and [clear_output] return normally and leave both
    stacks of the history empty, whatever the history held; a later undo or
    redo on the history does nothing.  [clear_source] leaves the source slot
    and the output slot empty, [clear_output] the output slot. *)
Theorem C10_clear_empties_history
    {sk : Skimage} (w : MainWindowController.t) :
  let w1 := snd (MainWindowController.clear_source w) in
  let w2 := snd (MainWindowController.clear_output w) in
  (fst (MainWindowController.clear_source w) = Ok tt /\
   CommandHistory._undo_stack (MainWindowController.history w1) = [] /\
   CommandHistory._redo_stack (MainWindowController.history w1) = [] /\
   img_source (MainWindowController.ctrl w1) = None /\
   img_output (MainWindowController.ctrl w1) = None) /\
  (fst (MainWindowController.clear_output w) = Ok tt /\
   CommandHistory._undo_stack (MainWindowController.history w2) = [] /\
   CommandHistory._redo_stack (MainWindowController.history w2) = [] /\
   img_output (MainWindowController.ctrl w2) = None) /\
  (forall c : ctrl_state,
     CommandHistory.undo (MainWindowController.history w1) c
       = (Ok tt, MainWindowController.history w1, c) /\
     CommandHistory.redo (MainWindowController.history w1) c
       = (Ok tt, MainWindowController.history w1, c) /\
     CommandHistory.undo (MainWindowController.history w2) c
       = (Ok tt, MainWindowController.history w2, c) /\
     CommandHistory.redo (MainWindowController.history w2) c
       = (Ok tt, MainWindowController.history w2, c)).
Proof.
  repeat split.
Qed.

(** ** The stacks of the history hold distinct command objects *)

Section HistoryPermutation.
Context {W C : Type} {IC : ICommand W C}.

Lemma undo_shrinks (h : CommandHistory.t C) (w : W) :
  shrinks (stacked (snd (fst (CommandHistory.undo h w)))) (stacked h).
Proof.
  unfold CommandHistory.undo, stacked.
  destruct (pop (CommandHistory._undo_stack h)) as [[rest cmd]|] eqn:E.
  - apply pop_some_inv in E. rewrite E.
    destruct (undo cmd w) as [[u|e] w1]; simpl.
    + left. rewrite <- app_assoc. apply Permutation_app_head.
      apply Permutation_app_comm.
    + right. exists cmd. rewrite <- app_assoc. simpl.
      apply Permutation_middle.
  - left. apply Permutation_refl.
Qed.

Lemma redo_shrinks (h : CommandHistory.t C) (w : W) :
  shrinks (stacked (snd (fst (CommandHistory.redo h w)))) (stacked h).
Proof.
  unfold CommandHistory.redo, stacked.
  destruct (pop (CommandHistory._redo_stack h)) as [[rest cmd]|] eqn:E.
  - apply pop_some_inv in E. rewrite E.
    destruct (execute cmd w) as [[u|e] w1]; simpl.
    + left. rewrite <- app_assoc. apply Permutation_app_head.
      apply Permutation_app_comm.
    + right. exists cmd. rewrite app_assoc.
      apply Permutation_sym.
      eapply Permutation_trans;
        [apply Permutation_app_comm | simpl; apply Permutation_refl].
  - left. apply Permutation_refl.
Qed.

Lemma shrinks_NoDup {B : Type} (f : C -> B) (l' l : list C) :
  shrinks l' l -> NoDup (map f l) -> NoDup (map f l').
Proof.
  intros [P|[x P]] N.
  - apply (Permutation_NoDup (Permutation_map f (Permutation_sym P)) N).
  - pose proof (Permutation_NoDup (Permutation_map f (Permutation_sym P)) N) as N'.
    simpl in N'. inversion N'; assumption.
Qed.

Lemma shrinks_Forall (P : C -> Prop) (l' l : list C) :
  shrinks l' l -> Forall P l -> Forall P l'.
Proof.
  intros [E|[x E]] F.
  - exact (Permutation_Forall (Permutation_sym E) F).
  - pose proof (Permutation_Forall (Permutation_sym E) F) as F'.
    inversion F'; assumption.
Qed.

End HistoryPermutation.

Lemma NoDup_app_apart {B : Type} (l1 l2 : list B) (x : B) :
  NoDup (l1 ++ l2) -> In x l1 -> In x l2 -> False.
Proof.
  induction l1 as [|y l1 IH]; simpl; intros N H1 H2; [exact H1|].
  inversion N as [|? ? Hy N']; subst.
  destruct H1 as [->|H1].
  - apply Hy. apply in_or_app. right; exact H2.
  - exact (IH N' H1 H2).
Qed.

Lemma NoDup_oid_at_most_one_stack (h : CommandHistory.t Command) :
  NoDup (map oid (stacked h)) -> on_at_most_one_stack h.
Proof.
  unfold stacked. rewrite map_app. intros N c1 c2 H1 H2 E.
  apply (NoDup_app_apart _ _ (oid c1) N).
  - apply in_map; exact H1.
  - rewrite E. apply in_map; exact H2.
Qed.

Section ControllerFacts.
Context {sk : Skimage}.

(** Pushing an object built just now keeps the invariant. *)
Lemma push_fresh_inv (h : CommandHistory.t Command) (n : nat) (b : CommandBody)
      (c : ctrl_state) :
  history_inv (MainWindowController.mk c h n) ->
  forall c' : ctrl_state,
    history_inv
      (MainWindowController.mk c' (CommandHistory.push h (mk_Command n b)) (S n)).
Proof.
  unfold history_inv, stacked; simpl. intros [N F] c'.
  rewrite app_nil_r. rewrite map_app in N. apply NoDup_app_remove_r in N.
  apply Forall_app in F. destruct F as [F _]. split.
  - rewrite map_app; simpl.
    apply NoDup_app; [exact N | constructor; [intros [] | constructor] |].
    intros a Ha [<-|[]].
    apply in_map_iff in Ha. destruct Ha as [x [Hx Hin]].
    rewrite Forall_forall in F. specialize (F x Hin). simpl in F. lia.
  - apply Forall_app. split.
    + eapply Forall_impl; [|exact F]. simpl. intros a Ha. lia.
    + constructor; [simpl; lia | constructor].
Qed.

Lemma shrinks_inv (w : MainWindowController.t) (h' : CommandHistory.t Command)
      (c' : ctrl_state) :
  shrinks (stacked h') (stacked (MainWindowController.history w)) ->
  history_inv w ->
  history_inv (MainWindowController.mk c' h' (MainWindowController.next_oid w)).
Proof.
  intros Hs [N F]. split; simpl.
  - exact (shrinks_NoDup oid _ _ Hs N).
  - exact (shrinks_Forall _ _ _ Hs F).
Qed.

(** Every handler keeps the invariant, whether it returns or raises. *)
Lemma handle_inv (e : MainWindowController.event) (w : MainWindowController.t) :
  history_inv w -> history_inv (snd (MainWindowController.handle e w)).
Proof.
  intros I. destruct w as [c h n].
  destruct e as [|dialog| | | | |k]; simpl.
  - unfold MainWindowController.resizeEvent; simpl.
    destruct (img_source c) as [src|];
      [destruct (_show_image _ _ _) as [[u|e] c1]; [|exact I]|];
      (destruct (img_output _) as [o|];
       [destruct (_show_image _ _ _) as [r c2]; exact I | exact I]).
  - unfold MainWindowController.open_source.
    destruct dialog as [[path [img|e]]|]; try exact I.
    destruct (_show_image _ _ _) as [[u|e] c']; exact I.
  - split; simpl; constructor.
  - split; simpl; constructor.
  - unfold MainWindowController.undo; simpl.
    pose proof (undo_shrinks h c) as Hs.
    destruct (CommandHistory.undo h c) as [[[u|e] h'] c']; simpl in *;
      exact (shrinks_inv (MainWindowController.mk c h n) _ _ Hs I).
  - unfold MainWindowController.redo; simpl.
    pose proof (redo_shrinks h c) as Hs.
    destruct (CommandHistory.redo h c) as [[[u|e] h'] c']; simpl in *;
      exact (shrinks_inv (MainWindowController.mk c h n) _ _ Hs I).
  - unfold MainWindowController._apply; simpl.
    destruct (img_source c) as [img|]; [|exact I].
    destruct (Command_execute _ c) as [[u|e] c']; simpl;
      apply (push_fresh_inv h n _ c I).
Qed.

Lemma init_inv : history_inv MainWindowController.init.
Proof.
  split; simpl; constructor.
Qed.

Lemma reachable_inv (w : MainWindowController.t) :
  MainWindowController.reachable w -> history_inv w.
Proof.
  induction 1 as [|e w R IH]; [exact init_inv | exact (handle_inv e w IH)].
Qed.

Lemma reachable_run (es : list MainWindowController.event)
      (w : MainWindowController.t) :
  MainWindowController.reachable w ->
  MainWindowController.reachable (MainWindowController.run es w).
Proof.
  revert w; induction es as [|e es IH]; intros w R; simpl; [exact R|].
  apply IH. constructor. exact R.
Qed.

End ControllerFacts.

(** C3.  In every state the controller can reach, by any handlers and
    whether they returned or raised, no command object is on both stacks.
    The invariant behind it (the objects on the two stacks are pairwise
    distinct) is kept by every handler whatever its outcome, by [push] of an
    object that is not on the undo stack, and by [undo] and [redo] of the
    history whatever their outcome.  When [execute] raises in [_apply] the
    command is the tail of the undo stack and the redo stack is empty; when
    it raises in [redo] the command has left the redo stack and the undo
    stack is as before. *)
Theorem C3_command_on_at_most_one_stack {sk : Skimage} :
  (forall w : MainWindowController.t,
     MainWindowController.reachable w ->
     on_at_most_one_stack (MainWindowController.history w)) /\
  (forall (e : MainWindowController.event) (w : MainWindowController.t),
     history_inv w ->
     history_inv (snd (MainWindowController.handle e w)) /\
     on_at_most_one_stack
       (MainWindowController.history (snd (MainWindowController.handle e w)))) /\
  (forall (h : CommandHistory.t Command) (cmd : Command),
     NoDup (map oid (stacked h)) ->
     ~ In (oid cmd) (map oid (CommandHistory._undo_stack h)) ->
     NoDup (map oid (stacked (CommandHistory.push h cmd)))) /\
  (forall (h : CommandHistory.t Command) (c : ctrl_state),
     NoDup (map oid (stacked h)) ->
     NoDup (map oid (stacked (snd (fst (CommandHistory.undo h c))))) /\
     NoDup (map oid (stacked (snd (fst (CommandHistory.redo h c)))))) /\
  (forall (k : ProcKind) (w w' : MainWindowController.t) (e : exn),
     MainWindowController._apply k w = (Raise e, w') ->
     exists cmd : Command,
       oid cmd = MainWindowController.next_oid w /\
       CommandHistory._undo_stack (MainWindowController.history w')
         = CommandHistory._undo_stack (MainWindowController.history w) ++ [cmd] /\
       CommandHistory._redo_stack (MainWindowController.history w') = []) /\
  (forall (h h' : CommandHistory.t Command) (c c' : ctrl_state) (e : exn),
     CommandHistory.redo h c = (Raise e, h', c') ->
     exists cmd : Command,
       CommandHistory._redo_stack h = CommandHistory._redo_stack h' ++ [cmd] /\
       CommandHistory._undo_stack h' = CommandHistory._undo_stack h).
Proof.
  split.
  { intros w R. apply NoDup_oid_at_most_one_stack.
    exact (proj1 (reachable_inv w R)). }
  split.
  { intros e w I. pose proof (handle_inv e w I) as I'. split; [exact I'|].
    apply NoDup_oid_at_most_one_stack. exact (proj1 I'). }
  split.
  { intros h cmd N Hfresh. unfold stacked, CommandHistory.push; simpl.
    rewrite app_nil_r, map_app; simpl.
    unfold stacked in N. rewrite map_app in N. apply NoDup_app_remove_r in N.
    apply NoDup_app; [exact N | constructor; [intros [] | constructor] |].
    intros a Ha [<-|[]]. exact (Hfresh Ha). }
  split.
  { intros h c N. split.
    - exact (shrinks_NoDup oid _ _ (undo_shrinks h c) N).
    - exact (shrinks_NoDup oid _ _ (redo_shrinks h c) N). }
  split.
  { intros k w w' e. unfold MainWindowController._apply.
    destruct (img_source (MainWindowController.ctrl w)) as [img|]; [|discriminate].
    destruct (Command_execute _ _) as [[u|e'] c']; [discriminate|].
    intros H; injection H as _ <-. simpl.
    eexists. split; [|split; reflexivity]. reflexivity. }
  intros h h' c c' e. unfold CommandHistory.redo.
  destruct (pop (CommandHistory._redo_stack h)) as [[rest cmd]|] eqn:E;
    [|discriminate].
  apply pop_some_inv in E.
  destruct (execute cmd c) as [[u|e'] c1]; [discriminate|].
  intros H; injection H as _ <- _. simpl.
  exists cmd. split; [exact E | reflexivity].
Qed.

(** ** Instances of the statements that have hypotheses *)

Lemma C1_push_empties_redo_stack_witness :
  ~ In (mk_Command 0 ClearOutputCommand)
       (stacked
          (fst (hist_run (IC := Command_ICommand (sk := skimage_example))
                  [HRedo; HUndo; HRedo]
                  (hist_run (IC := Command_ICommand (sk := skimage_example))
                     [HPush (mk_Command 0 ClearOutputCommand); HUndo;
                      HPush (mk_Command 1 ClearOutputCommand)]
                     (CommandHistory.init, ctrl_loaded))))).
Proof.
  destruct (C1_push_empties_redo_stack
              (IC := Command_ICommand (sk := skimage_example))
              CommandHistory.init
              (mk_Command 0 ClearOutputCommand)
              (mk_Command 1 ClearOutputCommand)
              ctrl_loaded) as [_ H].
  destruct H as (_ & _ & H).
  apply H.
  - simpl. intros [].
  - discriminate.
  - simpl. intros [E|[E|[E|[]]]]; discriminate.
Defined.

Lemma C3_command_on_at_most_one_stack_witness :
  on_at_most_one_stack
    (MainWindowController.history
       (MainWindowController.run (sk := skimage_example)
          [open_gray; MainWindowController.Apply Hsv;
           MainWindowController.Apply Hsv; MainWindowController.Undo]
          MainWindowController.init)).
Proof.
  apply (proj1 (C3_command_on_at_most_one_stack (sk := skimage_example))).
  apply reachable_run. apply MainWindowController.reachable_init.
Defined.

Lemma C4_undo_redo_noop_or_move_witness :
  CommandHistory.undo (IC := Command_ICommand (sk := skimage_example))
    CommandHistory.init ctrl_with_output
    = (Ok tt, CommandHistory.init, ctrl_with_output) /\
  CommandHistory.redo (IC := Command_ICommand (sk := skimage_example))
    CommandHistory.init ctrl_with_output
    = (Ok tt, CommandHistory.init, ctrl_with_output) /\
  CommandHistory.undo (IC := Command_ICommand (sk := skimage_example))
    (CommandHistory.mk [mk_Command 0 ClearOutputCommand] []) ctrl_with_output
    = (Ok tt, CommandHistory.mk [] [mk_Command 0 ClearOutputCommand],
       ctrl_with_output) /\
  CommandHistory.redo (IC := Command_ICommand (sk := skimage_example))
    (CommandHistory.mk [] [mk_Command 0 ClearOutputCommand]) ctrl_loaded
    = (Ok tt, CommandHistory.mk [mk_Command 0 ClearOutputCommand] [],
       ctrl_loaded).
Proof.
  split; [|split; [|split]].
  - apply (proj1 (C4_undo_redo_noop_or_move CommandHistory.init ctrl_with_output)).
    reflexivity.
  - apply (proj1 (proj2 (proj2
             (C4_undo_redo_noop_or_move CommandHistory.init ctrl_with_output)))).
    reflexivity.
  - exact (proj1 (proj2
             (C4_undo_redo_noop_or_move
                (CommandHistory.mk [mk_Command 0 ClearOutputCommand] [])
                ctrl_with_output)) [] (mk_Command 0 ClearOutputCommand) eq_refl).
  - exact (proj2 (proj2 (proj2
             (C4_undo_redo_noop_or_move
                (CommandHistory.mk [] [mk_Command 0 ClearOutputCommand])
                ctrl_loaded))) [] (mk_Command 0 ClearOutputCommand) eq_refl).
Defined.

Lemma C6_hsv_returns_non_rgb_input_witness :
  Rgb2HsvProcessor (sk := skimage_example) gray_0_100_200 = Ok gray_0_100_200.
Proof.
  apply (C6_hsv_returns_non_rgb_input (sk := skimage_example) gray_0_100_200).
  left. simpl. discriminate.
Defined.

Lemma C8_clear_source_reversible_witness :
  Command_undo
    (new_ClearSourceCommand 0 ctrl_loaded)
    (snd (Command_execute (sk := skimage_example)
            (new_ClearSourceCommand 0 ctrl_loaded) ctrl_loaded))
  = (Ok tt,
     set_lblSourceImage ctrl_loaded
       (Some (mk_ndarray uint8 [1%nat; 3%nat] [0; 127; 255]))).
Proof.
  apply (proj2 (proj2 (proj2
           (C8_clear_source_reversible (sk := skimage_example) 0 ctrl_loaded)))
           gray_0_100_200 (mk_ndarray uint8 [1%nat; 3%nat] [0; 127; 255])).
  - reflexivity.
  - reflexivity.
Defined.

Lemma C9_edge_emphasize_never_divides_by_zero_witness :
  (exists m, np_min [2; 0; 1] = Ok m /\ m == 0) /\
  emphasize_normalize [0; 0] = Ok [0; 0] /\
  emphasize_rescale [0; 1] 1 = Ok [0; 1].
Proof.
  destruct (C9_edge_emphasize_never_divides_by_zero (sk := skimage_example))
    as (_ & Hshift & Hnorm & Hresc & _).
  split; [|split].
  - destruct (Hshift [3; 1; 2] (np_sub [3; 1; 2] 1) eq_refl) as [m [E Hm]].
    exists m. split; [|exact Hm].
    vm_compute in E. vm_compute. exact E.
  - apply (Hnorm [0; 0] 0); reflexivity.
  - apply (Hresc [0; 1] 1). reflexivity.
Defined.

(** * Further properties of the code *)

(** ** Conversion to 8 bits *)

Lemma Qltb_false_of_le (x y : Q) : y <= x -> Qltb x y = false.
Proof.
  intros H. unfold Qltb. apply Qle_bool_iff in H. rewrite H. reflexivity.
Qed.

Lemma Qltb_true_iff (x y : Q) : Qltb x y = true <-> x < y.
Proof.
  unfold Qltb. split.
  - intros H. apply Qnot_le_lt. intros L. apply Qle_bool_iff in L.
    rewrite L in H. discriminate.
  - intros H. destruct (Qle_bool y x) eqn:E; [|reflexivity].
    apply Qle_bool_iff in E. exfalso. exact (Qlt_not_le _ _ H E).
Qed.

Lemma Qltb_comp (x x' y y' : Q) : x == x' -> y == y' -> Qltb x y = Qltb x' y'.
Proof.
  intros Ex Ey.
  destruct (Qltb x y) eqn:E1, (Qltb x' y') eqn:E2; try reflexivity.
  - apply Qltb_true_iff in E1. rewrite Ex, Ey in E1.
    apply Qltb_true_iff in E1. congruence.
  - apply Qltb_true_iff in E2. rewrite <- Ex, <- Ey in E2.
    apply Qltb_true_iff in E2. congruence.
Qed.

Lemma to_uint8_comp (x y : Q) : x == y -> to_uint8 x = to_uint8 y.
Proof.
  intros E. unfold to_uint8, Qtrunc.
  rewrite (Qltb_comp x y 0 0 E (Qeq_refl 0)).
  rewrite (Qfloor_comp x y E), (Qceiling_comp x y E). reflexivity.
Qed.

Lemma Qfloor_byte (x : Q) : 0 <= x <= 255 -> (0 <= Qfloor x <= 255)%Z.
Proof.
  intros [H0 H1]. split.
  - change 0%Z with (Qfloor 0). apply Qfloor_resp_le. exact H0.
  - change 255%Z with (Qfloor 255). apply Qfloor_resp_le. exact H1.
Qed.

(** A sample between 0 and 255 is converted without wrap-around. *)
Lemma to_uint8_exact (x : Q) :
  0 <= x <= 255 -> to_uint8 x = inject_Z (Qfloor x).
Proof.
  intros H. pose proof (Qfloor_byte x H) as B.
  unfold to_uint8, Qtrunc. rewrite (Qltb_false_of_le x 0 (proj1 H)).
  rewrite Z.mod_small; [reflexivity | lia].
Qed.

Lemma to_uint8_unwrapped (x : Q) : 0 <= x <= 255 -> unwrapped_byte (to_uint8 x).
Proof.
  intros H. exists x. split; [exact H|]. split.
  - apply to_uint8_exact; exact H.
  - apply Qfloor_byte; exact H.
Qed.

Lemma to_uint8_mono (x y : Q) :
  0 <= x -> x <= y -> y <= 255 -> to_uint8 x <= to_uint8 y.
Proof.
  intros H0 Hxy H1.
  rewrite (to_uint8_exact x), (to_uint8_exact y).
  - rewrite <- Zle_Qle. apply Qfloor_resp_le. exact Hxy.
  - split; [eapply Qle_trans; eassumption | exact H1].
  - split; [exact H0 | eapply Qle_trans; eassumption].
Qed.

Lemma clip_unit (x : Q) : 0 <= Qmin (Qmax x 0) 1 <= 1.
Proof.
  split.
  - apply Q.min_glb; [apply Q.le_max_r | discriminate].
  - apply Q.le_min_r.
Qed.

Lemma scale_unit (x : Q) : 0 <= x <= 1 -> 0 <= x * 255 <= 255.
Proof.
  intros [H0 H1]. split.
  - apply Qmult_le_0_compat; [exact H0 | discriminate].
  - setoid_replace 255 with (1 * 255) at 2 by reflexivity.
    apply Qmult_le_compat_r; [exact H1 | discriminate].
Qed.

(** ** The emphasize filter: outcome and range *)










Lemma Qmin_same (v : Q) : Qmin v v = v.
Proof.
  unfold Qmin, GenericMinMax.gmin. destruct (v ?= v); reflexivity.
Qed.

Lemma Qmax_same (v : Q) : Qmax v v = v.
Proof.
  unfold Qmax, GenericMinMax.gmax. destruct (v ?= v); reflexivity.
Qed.

Lemma fold_min_repeat (v : Q) (n : nat) : fold_left Qmin (repeat v n) v = v.
Proof.
  induction n as [|n IH]; simpl; [reflexivity|]. rewrite Qmin_same. exact IH.
Qed.

Lemma fold_max_repeat (v : Q) (n : nat) : fold_left Qmax (repeat v n) v = v.
Proof.
  induction n as [|n IH]; simpl; [reflexivity|]. rewrite Qmax_same. exact IH.
Qed.

Lemma Forall_repeat {A : Type} (P : A -> Prop) (v : A) (n : nat) :
  P v -> Forall P (repeat v n).
Proof.
  intros H. induction n; simpl; constructor; assumption.
Qed.

(** The clipped, scaled and converted value of a sample that is not above 0
    is 0. *)
Lemma emphasize_black (z : Q) : z <= 0 -> to_uint8 (Qmin (Qmax z 0) 1 * 255) = 0.
Proof.
  intros H.
  assert (E : Qmin (Qmax z 0) 1 * 255 == 0).
  { rewrite (Q.max_r z 0 H). rewrite Q.min_l by discriminate. reflexivity. }
  rewrite (to_uint8_comp _ _ E). reflexivity.
Qed.

(** X3.  A uniform edge response (no gradient anywhere) gives an all-black
    image: when the threshold the library computes for an all-zero array is
    not negative, every sample [_edge_emphasize] returns is 0. *)
Theorem edge_emphasize_uniform_is_black
    {sk : Skimage} (res out : ndarray) (v : Q) (n : nat) :
  data res = repeat v n ->
  (forall (a : ndarray) (t : Q),
     threshold_otsu a = Some t -> Forall (fun x => x == 0) (data a) -> 0 <= t) ->
  _edge_emphasize res = Ok out ->
  data out = repeat 0 n.
Proof.
  intros Hd Hlib. unfold _edge_emphasize. rewrite Hd.
  destruct n as [|n]; [discriminate|].
  unfold emphasize_shift. simpl np_min. rewrite fold_min_repeat. simpl bind.
  change (v :: repeat v n) with (repeat v (S n)).
  unfold np_sub. rewrite map_repeat.
  unfold emphasize_normalize. simpl np_max. rewrite fold_max_repeat. simpl bind.
  assert (Z0 : v - v == 0) by (unfold Qminus; apply Qplus_opp_r).
  rewrite (Qltb_zero_false _ Z0).
  change ((v - v) :: repeat (v - v) n) with (repeat (v - v) (S n)).
  cbn [bind].
  destruct (threshold_otsu _) as [thr|] eqn:Et; cbn [bind lib]; [|discriminate].
  assert (Hthr : 0 <= thr).
  { apply (Hlib _ _ Et). exact (Forall_repeat _ (v - v) (S n) Z0). }
  unfold emphasize_rescale.
  destruct (Qltb 0 (1 - thr)) eqn:G.
  - rewrite (np_div_pos _ _ G). simpl bind.
    intros H; injection H as <-. simpl data.
    unfold np_mul, np_clip, np_sub. rewrite !map_repeat.
    rewrite emphasize_black; [reflexivity|].
    apply Qltb_true_iff in G.
    apply Qle_shift_div_r; [exact G|].
    rewrite Qmult_0_l. rewrite Z0.
    apply (Qplus_le_l _ _ thr). ring_simplify. exact Hthr.
  - simpl bind. intros H; injection H as <-. simpl data.
    unfold np_mul, np_clip. rewrite !map_repeat.
    rewrite emphasize_black; [reflexivity|]. rewrite Z0. apply Qle_refl.
Qed.

(** ** Multi-level threshold segmentation *)

Lemma count_le_mono (bins : list Q) (x y : Q) :
  x <= y ->
  (count (fun b => Qle_bool b x) bins <= count (fun b => Qle_bool b y) bins)%Z.
Proof.
  intros Hxy. unfold count. apply inj_le.
  induction bins as [|b bins IH]; simpl; [lia|].
  destruct (Qle_bool b x) eqn:E1.
  - assert (E2 : Qle_bool b y = true).
    { apply Qle_bool_iff. apply Qle_bool_iff in E1. eapply Qle_trans; eassumption. }
    rewrite E2. simpl. lia.
  - destruct (Qle_bool b y); simpl; lia.
Qed.

Lemma digitize1_increasing_mono (t1 t2 x y : Q) :
  t1 <= t2 -> x <= y ->
  (digitize1 [t1; t2] x <= digitize1 [t1; t2] y)%Z.
Proof.
  intros Ht Hxy. unfold digitize1. simpl nondecreasing.
  apply Qle_bool_iff in Ht. rewrite Ht. simpl.
  apply count_le_mono. exact Hxy.
Qed.

Lemma digitize1_below (t1 t2 x : Q) :
  t1 <= t2 -> x < t1 -> digitize1 [t1; t2] x = 0%Z.
Proof.
  intros Ht Hx. unfold digitize1, count. simpl nondecreasing.
  pose proof Ht as Ht'. apply Qle_bool_iff in Ht'. rewrite Ht'. simpl.
  assert (E1 : Qle_bool t1 x = false).
  { destruct (Qle_bool t1 x) eqn:E; [|reflexivity].
    apply Qle_bool_iff in E. exfalso. exact (Qlt_not_le _ _ Hx E). }
  assert (E2 : Qle_bool t2 x = false).
  { destruct (Qle_bool t2 x) eqn:E; [|reflexivity].
    apply Qle_bool_iff in E. exfalso.
    apply (Qlt_not_le _ _ Hx). eapply Qle_trans; eassumption. }
  rewrite E1, E2. reflexivity.
Qed.

(** Below the top class the scaled value does not wrap and grows with the
    class. *)
Lemma multiotsu_scale_mono (m j k : Z) :
  (0 <= j <= k)%Z -> (k <= m)%Z -> (m <= 2)%Z ->
  multiotsu_scale m j <= multiotsu_scale m k.
Proof.
  intros Hj Hk Hm. unfold multiotsu_scale. rewrite <- Zle_Qle.
  assert (C : m = 0%Z \/ m = 1%Z \/ m = 2%Z) by lia.
  destruct C as [ -> | [ -> | -> ] ].
  - assert (j = 0%Z) by lia. assert (k = 0%Z) by lia. subst. apply Z.le_refl.
  - assert (Cj : j = 0%Z \/ j = 1%Z) by lia.
    assert (Ck : k = 0%Z \/ k = 1%Z) by lia.
    destruct Cj as [ -> | -> ], Ck as [ -> | -> ]; vm_compute; try discriminate; lia.
  - assert (Cj : j = 0%Z \/ j = 1%Z \/ j = 2%Z) by lia.
    assert (Ck : k = 0%Z \/ k = 1%Z \/ k = 2%Z) by lia.
    destruct Cj as [ -> | [ -> | -> ] ], Ck as [ -> | [ -> | -> ] ];
      vm_compute; try discriminate; lia.
Qed.


(** X5.  With thresholds in increasing order, the segmentation keeps the
    order of brightness: every output sample is a function of the grayscale
    sample at its place, a sample of the image that is not brighter than
    another one is not written brighter, and a sample below the lower
    threshold is written as 0. *)
Theorem MultiOtsuProcessor_order_preserving
    {sk : Skimage} (image gray out : ndarray) (t : Q * Q) :
  MultiOtsuProcessor image = Ok out ->
  to_gray image = Ok gray ->
  threshold_multiotsu gray = Some t ->
  fst t <= snd t ->
  exists f : Q -> Q,
    data out = map f (data gray) /\
    (forall x y, In x (data gray) -> In y (data gray) -> x <= y -> f x <= f y) /\
    (forall x, x < fst t -> f x = 0).
Proof.
  intros Hout Hg Ht Hord.
  destruct (MultiOtsuProcessor_output image out Hout)
    as (gray' & t' & classes & m & Hg' & Ht' & Hc & Hr & Hin & Hub & ->).
  rewrite Hg in Hg'. injection Hg' as <-.
  rewrite Ht in Ht'. injection Ht' as <-.
  subst classes.
  exists (fun x => multiotsu_scale m (digitize1 [fst t; snd t] x)).
  split; [simpl; rewrite map_map; reflexivity|]. split.
  - intros x y Hx Hy Hxy.
    rewrite Forall_forall in Hr.
    pose proof (Hr m Hin) as Hm. simpl in Hm.
    apply multiotsu_scale_mono.
    + split; [apply digitize1_two_bins|].
      apply digitize1_increasing_mono; assumption.
    + apply Hub. apply in_map. exact Hy.
    + lia.
  - intros x Hx. rewrite (digitize1_below _ _ _ Hord Hx). reflexivity.
Qed.

(** X6.  Once the grayscale conversion and the library's thresholds are
    there, [MultiOtsuProcessor] raises ValueError on an image without
    samples and returns on every other image, also when all pixels fall in
    class 0 and the scale factor is the quotient by zero. *)
Theorem MultiOtsuProcessor_outcome
    {sk : Skimage} (image gray : ndarray) (t : Q * Q) :
  to_gray image = Ok gray ->
  threshold_multiotsu gray = Some t ->
  (data gray = [] -> MultiOtsuProcessor image = Raise ValueError) /\
  (data gray <> [] -> exists out, MultiOtsuProcessor image = Ok out).
Proof.
  intros Hg Ht. unfold MultiOtsuProcessor. rewrite Hg. simpl. rewrite Ht. simpl.
  unfold multiotsu_classes. rewrite digitize_two_bins. simpl. split.
  - intros ->. reflexivity.
  - destruct (data gray) as [|x l]; [intros H; contradiction H; reflexivity|].
    intros _. simpl. eexists; reflexivity.
Qed.

(** ** The display buffer *)

Lemma fold_max_ge (t : list Q) (x : Q) :
  x <= fold_left Qmax t x /\ forall y, In y t -> y <= fold_left Qmax t x.
Proof.
  revert x; induction t as [|z t IH]; intros x; simpl.
  - split; [apply Qle_refl | intros y []].
  - destruct (IH (Qmax x z)) as [H1 H2]. split.
    + eapply Qle_trans; [apply Q.le_max_l | exact H1].
    + intros y [<-|Hy].
      * eapply Qle_trans; [apply Q.le_max_r | exact H1].
      * apply H2; exact Hy.
Qed.

Lemma fold_max_attained (t : list Q) (x : Q) :
  exists y, In y (x :: t) /\ fold_left Qmax t x == y.
Proof.
  revert x; induction t as [|z t IH]; intros x; simpl.
  - exists x. split; [left; reflexivity | reflexivity].
  - destruct (IH (Qmax x z)) as [y [[Hy|Hy] E]].
    + destruct (Q.max_spec_le x z) as [[_ Hm]|[_ Hm]].
      * exists z. split; [right; left; reflexivity|].
        rewrite E, <- Hy. exact Hm.
      * exists x. split; [left; reflexivity|].
        rewrite E, <- Hy. exact Hm.
    + exists y. split; [right; right; exact Hy | exact E].
Qed.

Lemma np_max_spec (l : list Q) (m : Q) :
  np_max l = Ok m ->
  (forall y, In y l -> y <= m) /\ exists y, In y l /\ m == y.
Proof.
  destruct l as [|x t]; simpl; [discriminate|].
  intros H; injection H as <-. split.
  - intros y [<-|Hy];
      [exact (proj1 (fold_max_ge t x)) | exact (proj2 (fold_max_ge t x) y Hy)].
  - apply fold_max_attained.
Qed.

Lemma np_min_nonempty (l : list Q) : l <> [] -> exists m, np_min l = Ok m.
Proof.
  destruct l; [intros H; contradiction H; reflexivity|].
  intros _. eexists; reflexivity.
Qed.

Lemma np_max_nonempty (l : list Q) : l <> [] -> exists m, np_max l = Ok m.
Proof.
  destruct l; [intros H; contradiction H; reflexivity|].
  intros _. eexists; reflexivity.
Qed.

Lemma map_nonempty {A B : Type} (f : A -> B) (l : list A) :
  l <> [] -> map f l <> [].
Proof.
  destruct l; [intros H; contradiction H; reflexivity | discriminate].
Qed.

(** A sample divided by a positive bound it does not exceed is between 0
    and 1. *)
Lemma ratio_unit (x d : Q) : 0 <= x -> x <= d -> 0 < d -> 0 <= x / d <= 1.
Proof.
  intros H0 H1 Hd. split.
  - apply Qle_shift_div_l; [exact Hd|]. rewrite Qmult_0_l. exact H0.
  - apply Qle_shift_div_r; [exact Hd|]. rewrite Qmult_1_l. exact H1.
Qed.

(** The shifted samples of a 2-D array lie between 0 and their maximum. *)
Lemma shifted_bounds (l : list Q) (m mx : Q) :
  np_min l = Ok m -> np_max (np_sub l m) = Ok mx ->
  forall x, In x l -> 0 <= x - m /\ x - m <= mx.
Proof.
  intros Em Ex x Hx.
  destruct (np_min_spec l m Em) as [Hlow _].
  destruct (np_max_spec _ mx Ex) as [Hup _].
  split.
  - unfold Qminus. rewrite <- Qle_minus_iff. apply Hlow; exact Hx.
  - apply Hup. exact (in_map (fun x => x - m) l x Hx).
Qed.

(** X7.  [_show_image]'s buffer: ValueError for an array without samples and
    for an array that is neither 2- nor 3-dimensional; for every other array
    an 8-bit buffer with the shape and the number of samples of the array,
    each sample the integer part of a value between 0 and 255 (no division
    by zero, no wrap-around). *)
Theorem show_buffer_outcome (a : ndarray) :
  (data a = [] -> show_buffer a = Raise ValueError) /\
  (data a <> [] -> ndim a <> 2%nat -> ndim a <> 3%nat ->
   show_buffer a = Raise ValueError) /\
  (data a <> [] -> ndim a = 2%nat \/ ndim a = 3%nat ->
   exists buf, show_buffer a = Ok buf /\
     dtype_of buf = uint8 /\ shape buf = shape a /\
     length (data buf) = length (data a) /\
     Forall unwrapped_byte (data buf)).
Proof.
  split; [|split].
  - intros E. unfold show_buffer. rewrite E.
    destruct (Nat.eqb (ndim a) 2); reflexivity.
  - intros Hne H2 H3. unfold show_buffer.
    apply Nat.eqb_neq in H2, H3. rewrite H2, H3.
    destruct (np_max_nonempty _ Hne) as [mx ->]. simpl.
    destruct (Qltb 1 mx); reflexivity.
  - intros Hne Hdim. unfold show_buffer.
    destruct (Nat.eqb (ndim a) 2) eqn:D2.
    + destruct (np_min_nonempty _ Hne) as [m Em]. rewrite Em. simpl.
      destruct (np_max_nonempty _ (map_nonempty (fun x => x - m) _ Hne)) as [mx Ex].
      unfold np_sub in *. rewrite Ex. simpl.
      pose proof (shifted_bounds _ _ _ Em Ex) as B.
      destruct (Qltb 0 mx) eqn:G.
      * rewrite (np_div_pos _ _ G). simpl.
        eexists. split; [reflexivity|]. simpl. repeat split.
        -- unfold np_mul. rewrite !length_map. reflexivity.
        -- unfold np_mul. rewrite !map_map. apply Forall_forall.
           intros y Hy. apply in_map_iff in Hy. destruct Hy as [x [<- Hx]].
           apply to_uint8_unwrapped. apply scale_unit.
           apply Qltb_true_iff in G. destruct (B x Hx).
           apply ratio_unit; assumption.
      * simpl. eexists. split; [reflexivity|]. simpl. repeat split.
        -- unfold np_mul. rewrite !length_map. reflexivity.
        -- unfold np_mul. rewrite !map_map. apply Forall_forall.
           intros y Hy. apply in_map_iff in Hy. destruct Hy as [x [<- Hx]].
           apply to_uint8_unwrapped. apply scale_unit.
           destruct (B x Hx) as [B0 B1]. split; [exact B0|].
           assert (M : mx <= 0).
           { apply Qnot_lt_le. intros L'. apply Qltb_true_iff in L'. congruence. }
           eapply Qle_trans; [exact B1|].
           eapply Qle_trans; [exact M | discriminate].
    + assert (D3 : Nat.eqb (ndim a) 3 = true).
      { apply Nat.eqb_eq. apply Nat.eqb_neq in D2. destruct Hdim; [contradiction|assumption]. }
      rewrite D3.
      destruct (np_max_nonempty _ Hne) as [mx ->]. simpl.
      assert (R : exists img, (if Qltb 1 mx then np_div (data a) 255 else Ok (data a)) = Ok img
                              /\ length img = length (data a)).
      { destruct (Qltb 1 mx).
        - eexists. split; [reflexivity|]. apply length_map.
        - eexists. split; reflexivity. }
      destruct R as [img [-> Hlen]]. simpl.
      eexists. split; [reflexivity|]. simpl. repeat split.
      * unfold np_mul, np_clip. rewrite !length_map. exact Hlen.
      * unfold np_mul, np_clip. rewrite !map_map. apply Forall_forall.
        intros y Hy. apply in_map_iff in Hy. destruct Hy as [x [<- Hx]].
        apply to_uint8_unwrapped. apply scale_unit. apply clip_unit.
Qed.

Lemma shifted_max (l : list Q) (lo hi mx : Q) :
  np_max l = Ok hi -> np_max (np_sub l lo) = Ok mx -> mx == hi - lo.
Proof.
  intros Eh Ex.
  destruct (np_max_spec l hi Eh) as [Hup [y [Hy Ehy]]].
  destruct (np_max_spec _ mx Ex) as [Hup' [y' [Hy' Ey']]].
  apply Qle_antisym.
  - rewrite Ey'. apply in_map_iff in Hy'. destruct Hy' as [x0 [<- Hx0]].
    unfold Qminus. apply Qplus_le_l. apply Hup; exact Hx0.
  - rewrite Ehy. apply Hup'. exact (in_map (fun x => x - lo) l y Hy).
Qed.

(** X8.  For a 2-D array [_show_image] stretches the contrast: the buffer is
    a function of the sample at each place that keeps the order of the
    samples, shows the smallest sample as 0 and, when the array is not
    constant, the largest as 255; a constant array is shown all 0. *)
Theorem show_buffer_2d_stretch (a buf : ndarray) (lo hi : Q) :
  ndim a = 2%nat ->
  np_min (data a) = Ok lo ->
  np_max (data a) = Ok hi ->
  show_buffer a = Ok buf ->
  exists f : Q -> Q,
    data buf = map f (data a) /\
    (forall x, In x (data a) -> x == lo -> f x = 0) /\
    (lo < hi -> forall x, In x (data a) -> x == hi -> f x = 255) /\
    (forall x y, In x (data a) -> In y (data a) -> x <= y -> f x <= f y) /\
    (~ lo < hi -> forall x, In x (data a) -> f x = 0).
Proof.
  intros D El Eh. unfold show_buffer.
  apply Nat.eqb_eq in D. rewrite D, El. cbn [bind].
  destruct (np_max (np_sub (data a) lo)) as [mx|] eqn:Ex; cbn [bind]; [|discriminate].
  pose proof (shifted_max _ lo hi mx Eh Ex) as Emx.
  pose proof (shifted_bounds _ _ _ El Ex) as B.
  destruct (Qltb 0 mx) eqn:G.
  - rewrite (np_div_pos _ _ G). cbn [bind].
    intros H; injection H as <-. apply Qltb_true_iff in G.
    exists (fun x => to_uint8 ((x - lo) / mx * 255)).
    split; [|split; [|split; [|split]]].
    + simpl. unfold np_mul, np_sub. rewrite !map_map. reflexivity.
    + intros x _ Ex0.
      assert (E : (x - lo) / mx * 255 == 0).
      { rewrite Ex0. unfold Qminus. rewrite Qplus_opp_r.
        unfold Qdiv. rewrite !Qmult_0_l. reflexivity. }
      rewrite (to_uint8_comp _ _ E). reflexivity.
    + intros _ x _ Ex1.
      assert (E : (x - lo) / mx * 255 == 255).
      { rewrite Ex1, <- Emx. unfold Qdiv. rewrite Qmult_inv_r.
        - reflexivity.
        - intros Z. rewrite Z in G. exact (Qlt_irrefl _ G). }
      rewrite (to_uint8_comp _ _ E). reflexivity.
    + intros x y Hx Hy Hxy.
      destruct (B x Hx) as [Bx0 Bx1]. destruct (B y Hy) as [By0 By1].
      apply to_uint8_mono.
      * apply scale_unit. apply ratio_unit; assumption.
      * apply Qmult_le_compat_r; [|discriminate].
        apply Qmult_le_compat_r.
        -- unfold Qminus. apply Qplus_le_l. exact Hxy.
        -- apply Qlt_le_weak. apply Qinv_lt_0_compat. exact G.
      * apply scale_unit. apply ratio_unit; assumption.
    + intros Hc. exfalso. apply Hc.
      rewrite Emx in G. unfold Qminus in G. rewrite <- Qlt_minus_iff in G. exact G.
  - cbn [bind]. intros H; injection H as <-.
    assert (M : mx <= 0).
    { apply Qnot_lt_le. intros L. apply Qltb_true_iff in L. congruence. }
    assert (Z : forall x, In x (data a) -> to_uint8 ((x - lo) * 255) = 0).
    { intros x Hx. destruct (B x Hx) as [B0 B1].
      assert (E : (x - lo) * 255 == 0).
      { assert (E0 : x - lo == 0).
        { apply Qle_antisym; [eapply Qle_trans; eassumption | exact B0]. }
        rewrite E0. reflexivity. }
      rewrite (to_uint8_comp _ _ E). reflexivity. }
    exists (fun x => to_uint8 ((x - lo) * 255)).
    split; [|split; [|split; [|split]]].
    + simpl. unfold np_mul, np_sub. rewrite !map_map. reflexivity.
    + intros x Hx _. exact (Z x Hx).
    + intros Hlt. exfalso.
      rewrite Emx in M. apply (Qlt_not_le _ _ Hlt).
      apply (Qplus_le_l _ _ (- lo)). rewrite Qplus_opp_r. exact M.
    + intros x y Hx Hy _. rewrite (Z x Hx), (Z y Hy). apply Qle_refl.
    + intros _ x Hx. exact (Z x Hx).
Qed.

(** ** Commands: execute and undo together *)

Lemma show_image_slots (array : option ndarray) (l : label) (c : ctrl_state) :
  img_source (snd (_show_image array l c)) = img_source c /\
  img_output (snd (_show_image array l c)) = img_output c /\
  widgets (snd (_show_image array l c)) = widgets c /\
  source_path (snd (_show_image array l c)) = source_path c.
Proof.
  unfold _show_image. destruct array as [a|]; [|repeat split].
  destruct (show_buffer a); [|repeat split].
  destruct l; repeat split.
Qed.

(** X9.  Executing a command a second time changes nothing: when [execute]
    returns, a further [execute] of the same command returns and leaves the
    controller as the first one left it (the output is computed from the
    source slot, not from the output or the snapshot). *)
Theorem Command_execute_idempotent
    {sk : Skimage} (cmd : Command) (c c1 : ctrl_state) :
  Command_execute cmd c = (Ok tt, c1) ->
  Command_execute cmd c1 = (Ok tt, c1).
Proof.
  destruct cmd as [id [prev_src| |k prev]]; unfold Command_execute; simpl.
  - intros H; injection H as <-. reflexivity.
  - intros H; injection H as <-. reflexivity.
  - destruct (process_source k (img_source c)) as [out|] eqn:E; [|discriminate].
    unfold _show_image. destruct (show_buffer out) as [p|] eqn:S; [|discriminate].
    intros H; injection H as <-. simpl. rewrite E, S. reflexivity.
Qed.

(** X10.  Redo restores what execute made: when [execute] returned, [undo]
    followed by [execute] again leaves the controller exactly as the first
    [execute] left it, whether that [undo] returned or raised. *)
Theorem Command_execute_after_undo
    {sk : Skimage} (cmd : Command) (c c1 : ctrl_state) :
  Command_execute cmd c = (Ok tt, c1) ->
  Command_execute cmd (snd (Command_undo cmd c1)) = (Ok tt, c1).
Proof.
  destruct cmd as [id [prev_src| |k prev]];
    unfold Command_execute, Command_undo; simpl.
  - intros H; injection H as <-. unfold _show_image.
    destruct prev_src as [a|]; [destruct (show_buffer a)|]; reflexivity.
  - intros H; injection H as <-. reflexivity.
  - destruct (process_source k (img_source c)) as [out|] eqn:E; [|discriminate].
    unfold _show_image at 1.
    destruct (show_buffer out) as [p|] eqn:S; [|discriminate].
    intros H; injection H as <-.
    unfold _show_image.
    destruct prev as [a|]; [destruct (show_buffer a)|];
      simpl; rewrite E; simpl; rewrite S; reflexivity.
Qed.

(** X11.  Undo restores the whole controller: when the output label shows the
    output image at the time an image command is built, and the command's
    [execute] returns, its [undo] returns and leaves every attribute of the
    controller as it was before [execute]. *)
Theorem image_command_round_trip
    {sk : Skimage} (k : ProcKind) (id : nat) (c c1 : ctrl_state)
    (p buf : ndarray) :
  output_shown c p buf ->
  Command_execute (new_BaseImageCommand k id c) c = (Ok tt, c1) ->
  Command_undo (new_BaseImageCommand k id c) c1 = (Ok tt, c).
Proof.
  intros (Ho & Hs & Hl).
  unfold Command_execute, Command_undo, new_BaseImageCommand; simpl.
  destruct (process_source k (img_source c)) as [out|]; [|discriminate].
  unfold _show_image at 1.
  destruct (show_buffer out) as [q|]; [|discriminate].
  intros H; injection H as <-.
  rewrite Ho. simpl. unfold copy, _show_image. rewrite Hs.
  destruct c; simpl in *. subst. reflexivity.
Qed.

(** ** The history: undo and redo together *)

Lemma nonempty_tail {A : Type} (l : list A) :
  l <> [] -> exists rest x, l = rest ++ [x].
Proof.
  intros H. destruct (pop l) as [[rest x]|] eqn:E.
  - exists rest, x. exact (pop_some_inv _ _ _ E).
  - contradiction H. exact (pop_nil_inv _ E).
Qed.

(** X12.  When the undo stack is not empty and [undo] and then [redo] return,
    the two stacks are again what they were; and so for [redo] and then
    [undo] when the redo stack is not empty. *)
Theorem history_undo_redo_round_trip
    {W C : Type} {IC : ICommand W C}
    (h h1 h2 : CommandHistory.t C) (w w1 w2 : W) :
  (CommandHistory._undo_stack h <> [] ->
   CommandHistory.undo h w = (Ok tt, h1, w1) ->
   CommandHistory.redo h1 w1 = (Ok tt, h2, w2) ->
   h2 = h) /\
  (CommandHistory._redo_stack h <> [] ->
   CommandHistory.redo h w = (Ok tt, h1, w1) ->
   CommandHistory.undo h1 w1 = (Ok tt, h2, w2) ->
   h2 = h).
Proof.
  split.
  - intros Hne. destruct (nonempty_tail _ Hne) as (rest & cmd & E).
    rewrite (undo_tail h w rest cmd E).
    destruct (undo cmd w) as [[u|e] w']; [|discriminate].
    intros H; injection H as <- <-.
    rewrite (redo_tail
               (CommandHistory.mk rest (CommandHistory._redo_stack h ++ [cmd]))
               w' (CommandHistory._redo_stack h) cmd eq_refl).
    destruct (execute cmd w') as [[u'|e] w'']; [|discriminate].
    intros H; injection H as <- _. simpl. rewrite <- E.
    destruct h; reflexivity.
  - intros Hne. destruct (nonempty_tail _ Hne) as (rest & cmd & E).
    rewrite (redo_tail h w rest cmd E).
    destruct (execute cmd w) as [[u|e] w']; [|discriminate].
    intros H; injection H as <- <-.
    rewrite (undo_tail
               (CommandHistory.mk (CommandHistory._undo_stack h ++ [cmd]) rest)
               w' (CommandHistory._undo_stack h) cmd eq_refl).
    destruct (undo cmd w') as [[u'|e] w'']; [|discriminate].
    intros H; injection H as <- _. simpl. rewrite <- E.
    destruct h; reflexivity.
Qed.

(** X13.  [undo] and [redo] that return only move commands between the
    stacks: the commands on the two stacks are those that were there,
    rearranged.  When the command's own method raises, that one command is
    dropped from the history and nothing else changes. *)
Theorem history_keeps_commands
    {W C : Type} {IC : ICommand W C} (h : CommandHistory.t C) (w : W) :
  (fst (fst (CommandHistory.undo h w)) = Ok tt ->
   Permutation (stacked (snd (fst (CommandHistory.undo h w)))) (stacked h)) /\
  (fst (fst (CommandHistory.redo h w)) = Ok tt ->
   Permutation (stacked (snd (fst (CommandHistory.redo h w)))) (stacked h)) /\
  (forall e, fst (fst (CommandHistory.undo h w)) = Raise e ->
   exists rest cmd,
     CommandHistory._undo_stack h = rest ++ [cmd] /\
     snd (fst (CommandHistory.undo h w))
       = CommandHistory.mk rest (CommandHistory._redo_stack h)) /\
  (forall e, fst (fst (CommandHistory.redo h w)) = Raise e ->
   exists rest cmd,
     CommandHistory._redo_stack h = rest ++ [cmd] /\
     snd (fst (CommandHistory.redo h w))
       = CommandHistory.mk (CommandHistory._undo_stack h) rest).
Proof.
  split; [|split; [|split]].
  - unfold CommandHistory.undo, stacked.
    destruct (pop (CommandHistory._undo_stack h)) as [[rest cmd]|] eqn:E;
      [|intros _; apply Permutation_refl].
    apply pop_some_inv in E. rewrite E.
    destruct (undo cmd w) as [[u|e] w1]; simpl; [intros _|discriminate].
    rewrite <- app_assoc. apply Permutation_app_head. apply Permutation_app_comm.
  - unfold CommandHistory.redo, stacked.
    destruct (pop (CommandHistory._redo_stack h)) as [[rest cmd]|] eqn:E;
      [|intros _; apply Permutation_refl].
    apply pop_some_inv in E. rewrite E.
    destruct (execute cmd w) as [[u|e] w1]; simpl; [intros _|discriminate].
    rewrite <- app_assoc. apply Permutation_app_head. apply Permutation_app_comm.
  - intros e. unfold CommandHistory.undo.
    destruct (pop (CommandHistory._undo_stack h)) as [[rest cmd]|] eqn:E;
      [|discriminate].
    apply pop_some_inv in E.
    destruct (undo cmd w) as [[u|e'] w1]; simpl; [discriminate|].
    intros _. exists rest, cmd. split; [exact E | reflexivity].
  - intros e. unfold CommandHistory.redo.
    destruct (pop (CommandHistory._redo_stack h)) as [[rest cmd]|] eqn:E;
      [|discriminate].
    apply pop_some_inv in E.
    destruct (execute cmd w) as [[u|e'] w1]; simpl; [discriminate|].
    intros _. exists rest, cmd. split; [exact E | reflexivity].
Qed.

(** ** The handlers of the window *)

Section WindowFacts.
Context {sk : Skimage}.

(** X14.  After [clear_source] the undo, redo and apply handlers return
    without changing anything in the controller; after [clear_output] the
    undo and redo handlers do. *)
Theorem handlers_after_clear (w : MainWindowController.t) (k : ProcKind) :
  let w1 := snd (MainWindowController.clear_source w) in
  let w2 := snd (MainWindowController.clear_output w) in
  MainWindowController.undo w1 = (Ok tt, w1) /\
  MainWindowController.redo w1 = (Ok tt, w1) /\
  MainWindowController._apply k w1 = (Ok tt, w1) /\
  MainWindowController.undo w2 = (Ok tt, w2) /\
  MainWindowController.redo w2 = (Ok tt, w2).
Proof.
  destruct w as [c h n]. repeat split.
Qed.

(** X15.  [open_source] never raises and never touches the history, the
    output slot or the output label: a loaded image replaces the source and
    the path only, a cancelled dialog or a loader failure leaves the whole
    controller as it was. *)
Theorem open_source_effect
    (dialog : option (String.string * result ndarray))
    (w : MainWindowController.t) :
  let w1 := snd (MainWindowController.open_source dialog w) in
  fst (MainWindowController.open_source dialog w) = Ok tt /\
  MainWindowController.history w1 = MainWindowController.history w /\
  img_output (MainWindowController.ctrl w1)
    = img_output (MainWindowController.ctrl w) /\
  lblOutputImage (MainWindowController.ctrl w1)
    = lblOutputImage (MainWindowController.ctrl w) /\
  (forall path img, dialog = Some (path, Ok img) ->
     img_source (MainWindowController.ctrl w1) = Some img /\
     source_path (MainWindowController.ctrl w1) = Some path) /\
  (forall path e, dialog = Some (path, Raise e) -> w1 = w) /\
  (dialog = None -> w1 = w).
Proof.
  destruct w as [c h n].
  unfold MainWindowController.open_source.
  destruct dialog as [[path [img|e]]|]; simpl.
  - unfold _show_image; simpl.
    destruct (show_buffer img); simpl; repeat split;
      try discriminate;
      try (match goal with
           | Hd : Some _ = Some _ |- _ => injection Hd as E1 E2; subst; reflexivity
           end).
  - repeat split; discriminate.
  - repeat split; discriminate.
Qed.

(** X17.  What a returning [_apply] leaves when there is a source image: the
    output slot holds the processor's result on the source, the source is
    untouched, the new command (with the old output as its snapshot) is the
    tail of the undo stack, the redo stack is empty, undo is enabled and
    redo disabled. *)
Theorem apply_effect
    (k : ProcKind) (w w1 : MainWindowController.t) (src : ndarray) :
  img_source (MainWindowController.ctrl w) = Some src ->
  MainWindowController._apply k w = (Ok tt, w1) ->
  (exists out : ndarray,
     process k src = Ok out /\
     img_output (MainWindowController.ctrl w1) = Some out) /\
  img_source (MainWindowController.ctrl w1) = Some src /\
  CommandHistory._undo_stack (MainWindowController.history w1)
    = CommandHistory._undo_stack (MainWindowController.history w)
      ++ [mk_Command (MainWindowController.next_oid w)
            (BaseImageCommand k (img_output (MainWindowController.ctrl w)))] /\
  CommandHistory._redo_stack (MainWindowController.history w1) = [] /\
  enUndoOutput (widgets (MainWindowController.ctrl w1)) = true /\
  enRedoOutput (widgets (MainWindowController.ctrl w1)) = false.
Proof.
  destruct w as [c h n]. simpl. intros Hs.
  unfold MainWindowController._apply; simpl. rewrite Hs.
  unfold Command_execute, new_BaseImageCommand; simpl. rewrite Hs. simpl.
  destruct (process k src) as [out|] eqn:E; [|discriminate].
  unfold _show_image. destruct (show_buffer out) as [q|]; [|discriminate].
  intros H; injection H as <-. simpl.
  assert (Hc : option_map copy (img_output c) = img_output c)
    by (destruct (img_output c); reflexivity).
  rewrite Hc. split; [exists out; split; reflexivity|].
  repeat split; try assumption.
  destruct (CommandHistory._undo_stack h); reflexivity.
Qed.

(** X16.  Apply, undo, redo with an output already there and shown: after a
    returning [_apply], the undo handler returns, the output slot and the
    output label are back to the previous output and the undo stack is the
    one from before the apply; the redo handler then returns, and the output
    slot, the output label and the history are again those the apply
    left. *)
Theorem apply_undo_redo
    (k : ProcKind) (w w1 : MainWindowController.t) (src p buf : ndarray) :
  img_source (MainWindowController.ctrl w) = Some src ->
  output_shown (MainWindowController.ctrl w) p buf ->
  MainWindowController._apply k w = (Ok tt, w1) ->
  exists w2 w3 : MainWindowController.t,
    MainWindowController.undo w1 = (Ok tt, w2) /\
    img_output (MainWindowController.ctrl w2) = Some p /\
    lblOutputImage (MainWindowController.ctrl w2) = Some buf /\
    CommandHistory._undo_stack (MainWindowController.history w2)
      = CommandHistory._undo_stack (MainWindowController.history w) /\
    MainWindowController.redo w2 = (Ok tt, w3) /\
    img_output (MainWindowController.ctrl w3)
      = img_output (MainWindowController.ctrl w1) /\
    lblOutputImage (MainWindowController.ctrl w3)
      = lblOutputImage (MainWindowController.ctrl w1) /\
    MainWindowController.history w3 = MainWindowController.history w1.
Proof.
  destruct w as [c h n]. simpl. intros Hs (Ho & Hb & Hl).
  unfold MainWindowController._apply; simpl. rewrite Hs.
  unfold Command_execute, new_BaseImageCommand; simpl. rewrite Hs, Ho. simpl.
  destruct (process k src) as [out|] eqn:E; [|discriminate].
  unfold _show_image. destruct (show_buffer out) as [q|] eqn:Eq; [|discriminate].
  intros H; injection H as <-. unfold copy.
  unfold MainWindowController.undo; simpl.
  unfold CommandHistory.undo, CommandHistory.push; simpl. rewrite pop_app.
  simpl. unfold Command_undo, _show_image; simpl. rewrite Hb. simpl.
  eexists. eexists. split; [reflexivity|]. simpl.
  split; [reflexivity|]. split; [reflexivity|]. split; [reflexivity|].
  unfold MainWindowController.redo; simpl.
  unfold CommandHistory.redo; simpl.
  unfold Command_execute, _show_image; simpl. rewrite Hs. simpl.
  rewrite E, Eq. simpl.
  split; [reflexivity|]. repeat split.
Qed.

End WindowFacts.

(** ** No processor runs without a source image *)

Section SourceInvariant.
Context {sk : Skimage}.

Lemma image_command_undo_source (cmd : Command) (c : ctrl_state) :
  is_image_command cmd ->
  img_source (snd (Command_undo cmd c)) = img_source c.
Proof.
  destruct cmd as [id [prev_src| |k prev]]; simpl; try contradiction.
  intros _. unfold Command_undo; simpl.
  exact (proj1 (show_image_slots prev LblOutputImage (set_img_output c prev))).
Qed.

Lemma image_command_execute_source (cmd : Command) (c : ctrl_state) :
  is_image_command cmd ->
  img_source (snd (Command_execute cmd c)) = img_source c.
Proof.
  destruct cmd as [id [prev_src| |k prev]]; simpl; try contradiction.
  intros _. unfold Command_execute; simpl.
  destruct (process_source k (img_source c)) as [out|]; [|reflexivity].
  exact (proj1 (show_image_slots (Some out) LblOutputImage
                  (set_img_output c (Some out)))).
Qed.

Lemma stacked_nonempty_source (c : ctrl_state) (h : CommandHistory.t Command)
      (n : nat) :
  source_inv (MainWindowController.mk c h n) ->
  stacked h <> [] -> img_source c <> None.
Proof.
  intros [_ I] Hne E. destruct (I E) as [_ Hs]. exact (Hne Hs).
Qed.

Lemma undo_source_inv (c : ctrl_state) (h : CommandHistory.t Command) (n : nat) :
  source_inv (MainWindowController.mk c h n) ->
  source_inv (MainWindowController.mk
                (snd (CommandHistory.undo h c))
                (snd (fst (CommandHistory.undo h c))) n) /\
  (img_source (snd (CommandHistory.undo h c)) = None ->
   snd (CommandHistory.undo h c) = c).
Proof.
  intros I. pose proof I as [F J].
  pose proof (shrinks_Forall _ _ _ (undo_shrinks h c) F) as F'.
  unfold source_inv; simpl in *.
  unfold CommandHistory.undo in *.
  destruct (pop (CommandHistory._undo_stack h)) as [[rest cmd]|] eqn:E.
  - apply pop_some_inv in E.
    assert (Hne : stacked h <> []).
    { unfold stacked. rewrite E. destruct rest; discriminate. }
    pose proof (stacked_nonempty_source c h n I Hne) as Hsrc.
    assert (Hc : is_image_command cmd).
    { rewrite Forall_forall in F. apply F. unfold stacked. rewrite E.
      rewrite !in_app_iff. left. right. left. reflexivity. }
    pose proof (image_command_undo_source cmd c Hc) as Hu.
    change (@undo _ _ Command_ICommand cmd c) with (Command_undo cmd c) in *.
    destruct (Command_undo cmd c) as [[u|e] c1]; simpl in *;
      (split; [split; [exact F'|] |]);
      intros Hn; rewrite Hu in Hn; contradiction.
  - simpl. split; [split; assumption | reflexivity].
Qed.

Lemma redo_source_inv (c : ctrl_state) (h : CommandHistory.t Command) (n : nat) :
  source_inv (MainWindowController.mk c h n) ->
  source_inv (MainWindowController.mk
                (snd (CommandHistory.redo h c))
                (snd (fst (CommandHistory.redo h c))) n) /\
  (img_source (snd (CommandHistory.redo h c)) = None ->
   snd (CommandHistory.redo h c) = c).
Proof.
  intros I. pose proof I as [F J].
  pose proof (shrinks_Forall _ _ _ (redo_shrinks h c) F) as F'.
  unfold source_inv; simpl in *.
  unfold CommandHistory.redo in *.
  destruct (pop (CommandHistory._redo_stack h)) as [[rest cmd]|] eqn:E.
  - apply pop_some_inv in E.
    assert (Hne : stacked h <> []).
    { unfold stacked. rewrite E. intros Z. apply app_eq_nil in Z.
      destruct Z as [_ Z]. destruct rest; discriminate. }
    pose proof (stacked_nonempty_source c h n I Hne) as Hsrc.
    assert (Hc : is_image_command cmd).
    { rewrite Forall_forall in F. apply F. unfold stacked. rewrite E.
      rewrite !in_app_iff. right. right. left. reflexivity. }
    pose proof (image_command_execute_source cmd c Hc) as Hu.
    change (@execute _ _ Command_ICommand cmd c) with (Command_execute cmd c) in *.
    destruct (Command_execute cmd c) as [[u|e] c1]; simpl in *;
      (split; [split; [exact F'|] |]);
      intros Hn; rewrite Hu in Hn; contradiction.
  - simpl. split; [split; assumption | reflexivity].
Qed.

Lemma resize_slots (w : MainWindowController.t) :
  MainWindowController.history (snd (MainWindowController.resizeEvent w))
    = MainWindowController.history w /\
  img_source (MainWindowController.ctrl (snd (MainWindowController.resizeEvent w)))
    = img_source (MainWindowController.ctrl w) /\
  img_output (MainWindowController.ctrl (snd (MainWindowController.resizeEvent w)))
    = img_output (MainWindowController.ctrl w).
Proof.
  destruct w as [c h n]. unfold MainWindowController.resizeEvent. simpl.
  set (r1 := match img_source c with
             | Some _ => _show_image (img_source c) LblSourceImage c
             | None => (Ok tt, c)
             end).
  assert (S : img_source (snd r1) = img_source c /\
              img_output (snd r1) = img_output c).
  { subst r1. destruct (img_source c) as [src|] eqn:Es.
    - destruct (show_image_slots (Some src) LblSourceImage c) as (S1 & S2 & _).
      rewrite S1, S2. split; [exact Es | reflexivity].
    - simpl. split; [exact Es | reflexivity]. }
  destruct r1 as [[u|e] c1]; simpl in S; destruct S as [S1 S2]; simpl.
  - destruct (img_output c1) as [o|] eqn:Eo; simpl.
    + unfold _show_image. destruct (show_buffer o); simpl;
        repeat split; congruence.
    + repeat split; congruence.
  - repeat split; assumption.
Qed.

Lemma handle_source_inv (e : MainWindowController.event)
      (w : MainWindowController.t) :
  source_inv w -> source_inv (snd (MainWindowController.handle e w)).
Proof.
  intros I. destruct w as [c h n].
  destruct e as [|dialog| | | | |k]; simpl.
  - (* resize *)
    destruct (resize_slots (MainWindowController.mk c h n)) as (Rh & Rs & Ro).
    destruct I as [F J]. split.
    + rewrite Rh. exact F.
    + rewrite Rh, Rs, Ro. exact J.
  - (* open_source *)
    unfold MainWindowController.open_source.
    destruct dialog as [[path [img|e]]|]; try exact I.
    destruct I as [F J]. unfold _show_image; simpl.
    destruct (show_buffer img); simpl; (split; simpl; [exact F | discriminate]).
  - split; simpl; [constructor | intros _; split; reflexivity].
  - split; simpl; [constructor | intros _; split; reflexivity].
  - (* undo *)
    unfold MainWindowController.undo; simpl.
    destruct (undo_source_inv c h n I) as [[F J] _].
    destruct (CommandHistory.undo h c) as [[[u|e] h'] c']; simpl in *.
    + split; simpl; [exact F|].
      destruct (img_output c') eqn:Eo; simpl; rewrite Eo; exact J.
    + split; assumption.
  - (* redo *)
    unfold MainWindowController.redo; simpl.
    destruct (redo_source_inv c h n I) as [[F J] _].
    destruct (CommandHistory.redo h c) as [[[u|e] h'] c']; simpl in *.
    + split; simpl; [exact F | exact J].
    + split; assumption.
  - (* apply *)
    unfold MainWindowController._apply; simpl.
    destruct (img_source c) as [src|] eqn:Es; [|exact I].
    destruct I as [F J].
    pose proof (image_command_execute_source
                  (new_BaseImageCommand k n c) c I) as Hsrc.
    assert (F' : Forall is_image_command
                   (stacked (CommandHistory.push h (new_BaseImageCommand k n c)))).
    { unfold stacked, CommandHistory.push; simpl. rewrite app_nil_r.
      apply Forall_app. split.
      - unfold stacked in F. apply Forall_app in F. exact (proj1 F).
      - constructor; [exact I | constructor]. }
    destruct (Command_execute (new_BaseImageCommand k n c) c) as [[u|e] c1];
      simpl in Hsrc; (split; simpl; [exact F'|]);
      intros Hn; rewrite Hsrc, Es in Hn; discriminate.
Qed.

Lemma init_source_inv : source_inv MainWindowController.init.
Proof.
  split; simpl; [constructor | intros _; split; reflexivity].
Qed.

(** X18.  In every state the controller can reach, the history holds image
    commands only (the clear commands never stay in it), and whenever the
    source slot is empty the output slot is empty and both stacks are empty:
    no undo or redo can run a command without a source image. *)
Theorem reachable_source_inv (w : MainWindowController.t) :
  MainWindowController.reachable w -> source_inv w.
Proof.
  induction 1 as [|e w R IH];
    [exact init_source_inv | exact (handle_source_inv e w IH)].
Qed.

End SourceInvariant.

(** ** Instances of the further statements *)



Lemma edge_emphasize_uniform_is_black_witness :
  data (mk_ndarray uint8 [1%nat; 3%nat] [0; 0; 0]) = repeat 0 3.
Proof.
  apply (edge_emphasize_uniform_is_black (sk := skimage_example2)
           gray_uniform_128 _ 128 3).
  - reflexivity.
  - intros a t H _. simpl in H. injection H as <-. discriminate.
  - vm_compute. reflexivity.
Defined.


Lemma MultiOtsuProcessor_order_preserving_witness :
  exists f : Q -> Q,
    data (mk_ndarray uint8 [1%nat; 3%nat] [127; 254; 254])
      = map f (data gray_0_100_200) /\
    (forall x y, In x (data gray_0_100_200) -> In y (data gray_0_100_200) ->
       x <= y -> f x <= f y) /\
    (forall x, x < fst (0, 100) -> f x = 0).
Proof.
  apply (MultiOtsuProcessor_order_preserving (sk := skimage_example)
           gray_0_100_200 gray_0_100_200 _ (0, 100)).
  - vm_compute. reflexivity.
  - reflexivity.
  - reflexivity.
  - simpl. discriminate.
Defined.

Lemma MultiOtsuProcessor_outcome_witness :
  exists out, MultiOtsuProcessor (sk := skimage_example) gray_0_100_200 = Ok out.
Proof.
  apply (proj2 (MultiOtsuProcessor_outcome (sk := skimage_example)
                  gray_0_100_200 gray_0_100_200 (0, 100) eq_refl eq_refl)).
  simpl. discriminate.
Defined.

Lemma show_buffer_outcome_witness :
  show_buffer (mk_ndarray uint8 [3%nat] [0; 100; 200]) = Raise ValueError /\
  exists buf, show_buffer gray_0_100_200 = Ok buf /\
    dtype_of buf = uint8 /\ shape buf = shape gray_0_100_200 /\
    length (data buf) = length (data gray_0_100_200) /\
    Forall unwrapped_byte (data buf).
Proof.
  split.
  - apply (proj1 (proj2 (show_buffer_outcome
                           (mk_ndarray uint8 [3%nat] [0; 100; 200])))).
    + simpl. discriminate.
    + simpl. discriminate.
    + simpl. discriminate.
  - apply (proj2 (proj2 (show_buffer_outcome gray_0_100_200))).
    + simpl. discriminate.
    + left. reflexivity.
Defined.

Lemma show_buffer_2d_stretch_witness :
  exists f : Q -> Q,
    data (mk_ndarray uint8 [1%nat; 3%nat] [0; 127; 255])
      = map f (data gray_0_100_200) /\
    (forall x, In x (data gray_0_100_200) -> x == 0 -> f x = 0) /\
    (0 < 200 -> forall x, In x (data gray_0_100_200) -> x == 200 -> f x = 255) /\
    (forall x y, In x (data gray_0_100_200) -> In y (data gray_0_100_200) ->
       x <= y -> f x <= f y) /\
    (~ 0 < 200 -> forall x, In x (data gray_0_100_200) -> f x = 0).
Proof.
  apply (show_buffer_2d_stretch gray_0_100_200 _ 0 200).
  - reflexivity.
  - reflexivity.
  - reflexivity.
  - vm_compute. reflexivity.
Defined.

Lemma Command_execute_idempotent_witness :
  Command_execute (sk := skimage_example)
    (new_BaseImageCommand Hsv 0 ctrl_loaded)
    (snd (Command_execute (sk := skimage_example)
            (new_BaseImageCommand Hsv 0 ctrl_loaded) ctrl_loaded))
  = (Ok tt,
     snd (Command_execute (sk := skimage_example)
            (new_BaseImageCommand Hsv 0 ctrl_loaded) ctrl_loaded)).
Proof.
  apply (Command_execute_idempotent (sk := skimage_example) _ ctrl_loaded).
  vm_compute. reflexivity.
Defined.

Lemma Command_execute_after_undo_witness :
  Command_execute (sk := skimage_example)
    (new_BaseImageCommand Hsv 0 ctrl_with_output)
    (snd (Command_undo (new_BaseImageCommand Hsv 0 ctrl_with_output)
            (snd (Command_execute (sk := skimage_example)
                    (new_BaseImageCommand Hsv 0 ctrl_with_output)
                    ctrl_with_output))))
  = (Ok tt,
     snd (Command_execute (sk := skimage_example)
            (new_BaseImageCommand Hsv 0 ctrl_with_output) ctrl_with_output)).
Proof.
  apply (Command_execute_after_undo (sk := skimage_example) _ ctrl_with_output).
  vm_compute. reflexivity.
Defined.

Lemma image_command_round_trip_witness :
  Command_undo
    (new_BaseImageCommand Hsv 1
       (set_lblOutputImage ctrl_with_output
          (Some (mk_ndarray uint8 [1%nat; 3%nat] [0; 127; 255]))))
    (snd (Command_execute (sk := skimage_example)
            (new_BaseImageCommand Hsv 1
               (set_lblOutputImage ctrl_with_output
                  (Some (mk_ndarray uint8 [1%nat; 3%nat] [0; 127; 255]))))
            (set_lblOutputImage ctrl_with_output
               (Some (mk_ndarray uint8 [1%nat; 3%nat] [0; 127; 255])))))
  = (Ok tt,
     set_lblOutputImage ctrl_with_output
       (Some (mk_ndarray uint8 [1%nat; 3%nat] [0; 127; 255]))).
Proof.
  apply (image_command_round_trip (sk := skimage_example) Hsv 1 _ _
           gray_0_100_200 (mk_ndarray uint8 [1%nat; 3%nat] [0; 127; 255])).
  - repeat split.
  - vm_compute. reflexivity.
Defined.

Lemma history_undo_redo_round_trip_witness :
  CommandHistory.mk [mk_Command 0 ClearOutputCommand] []
  = CommandHistory.mk [mk_Command 0 ClearOutputCommand] [].
Proof.
  apply (proj1 (history_undo_redo_round_trip
                  (IC := Command_ICommand (sk := skimage_example))
                  (CommandHistory.mk [mk_Command 0 ClearOutputCommand] [])
                  (CommandHistory.mk [] [mk_Command 0 ClearOutputCommand])
                  (CommandHistory.mk [mk_Command 0 ClearOutputCommand] [])
                  ctrl_loaded ctrl_loaded ctrl_loaded)).
  - simpl. discriminate.
  - reflexivity.
  - reflexivity.
Defined.

Lemma history_keeps_commands_witness :
  Permutation
    (stacked (snd (fst (CommandHistory.undo
                          (IC := Command_ICommand (sk := skimage_example))
                          (CommandHistory.mk [mk_Command 0 ClearOutputCommand] [])
                          ctrl_loaded))))
    (stacked (CommandHistory.mk [mk_Command 0 ClearOutputCommand] [])).
Proof.
  apply (proj1 (history_keeps_commands
                  (IC := Command_ICommand (sk := skimage_example))
                  (CommandHistory.mk [mk_Command 0 ClearOutputCommand] [])
                  ctrl_loaded)).
  reflexivity.
Defined.

Lemma open_source_effect_witness :
  img_source
    (MainWindowController.ctrl
       (snd (MainWindowController.open_source
               (Some ("a.png"%string, Ok gray_0_100_200))
               MainWindowController.init)))
  = Some gray_0_100_200 /\
  source_path
    (MainWindowController.ctrl
       (snd (MainWindowController.open_source
               (Some ("a.png"%string, Ok gray_0_100_200))
               MainWindowController.init)))
  = Some "a.png"%string.
Proof.
  destruct (open_source_effect (Some ("a.png"%string, Ok gray_0_100_200))
              MainWindowController.init) as (_ & _ & _ & _ & H & _).
  exact (H "a.png"%string gray_0_100_200 eq_refl).
Defined.

Lemma apply_effect_witness :
  CommandHistory._redo_stack
    (MainWindowController.history
       (MainWindowController.run (sk := skimage_example)
          [open_gray; MainWindowController.Apply Hsv]
          MainWindowController.init)) = [].
Proof.
  apply (apply_effect (sk := skimage_example) Hsv
           (MainWindowController.run (sk := skimage_example) [open_gray]
              MainWindowController.init)
           _ gray_0_100_200).
  - reflexivity.
  - vm_compute. reflexivity.
Defined.

Lemma apply_undo_redo_witness :
  exists w2 w3 : MainWindowController.t,
    MainWindowController.undo (sk := skimage_example)
      (MainWindowController.run (sk := skimage_example)
         [open_gray; MainWindowController.Apply Hsv; MainWindowController.Apply Hsv]
         MainWindowController.init)
      = (Ok tt, w2) /\
    img_output (MainWindowController.ctrl w2) = Some gray_0_100_200 /\
    MainWindowController.redo (sk := skimage_example) w2 = (Ok tt, w3).
Proof.
  destruct (apply_undo_redo (sk := skimage_example) Hsv
              (MainWindowController.run (sk := skimage_example)
                 [open_gray; MainWindowController.Apply Hsv]
                 MainWindowController.init)
              (MainWindowController.run (sk := skimage_example)
                 [open_gray; MainWindowController.Apply Hsv;
                  MainWindowController.Apply Hsv]
                 MainWindowController.init)
              gray_0_100_200 gray_0_100_200
              (mk_ndarray uint8 [1%nat; 3%nat] [0; 127; 255]))
    as (w2 & w3 & H1 & H2 & _ & _ & H3 & _).
  - reflexivity.
  - repeat split.
  - vm_compute. reflexivity.
  - exists w2, w3. repeat split; assumption.
Defined.

Lemma reachable_source_inv_witness :
  source_inv
    (MainWindowController.run (sk := skimage_example)
       [open_gray; MainWindowController.Apply Hsv; MainWindowController.Undo;
        MainWindowController.ClearSource]
       MainWindowController.init).
Proof.
  apply (reachable_source_inv (sk := skimage_example)).
  apply reachable_run. apply MainWindowController.reachable_init.
Defined.

(** ** Apply followed by undo when there was no output; a failing processor *)

(** X19.  When an image command is applied while the output slot is empty,
    whatever the processor, the undo handler that follows raises
    AttributeError: the output slot is emptied, the output label still shows
    the applied result, and the command is dropped from the history (the undo
    stack is the one from before the apply, the redo stack is empty). *)
Theorem undo_after_first_apply_raises
    {sk : Skimage} (k : ProcKind) (w w1 : MainWindowController.t)
    (src : ndarray) :
  img_source (MainWindowController.ctrl w) = Some src ->
  img_output (MainWindowController.ctrl w) = None ->
  MainWindowController._apply k w = (Ok tt, w1) ->
  let r := MainWindowController.undo w1 in
  fst r = Raise AttributeError /\
  img_output (MainWindowController.ctrl (snd r)) = None /\
  lblOutputImage (MainWindowController.ctrl (snd r))
    = lblOutputImage (MainWindowController.ctrl w1) /\
  lblOutputImage (MainWindowController.ctrl w1) <> None /\
  CommandHistory._undo_stack (MainWindowController.history (snd r))
    = CommandHistory._undo_stack (MainWindowController.history w) /\
  CommandHistory._redo_stack (MainWindowController.history (snd r)) = [].
Proof.
  destruct w as [c h n]. simpl. intros Hs Ho.
  unfold MainWindowController._apply; simpl. rewrite Hs.
  unfold Command_execute, new_BaseImageCommand; simpl. rewrite Hs, Ho. simpl.
  destruct (process k src) as [out|]; [|discriminate].
  unfold _show_image. destruct (show_buffer out) as [q|]; [|discriminate].
  intros H; injection H as <-.
  unfold MainWindowController.undo; simpl.
  unfold CommandHistory.undo, CommandHistory.push; simpl. rewrite pop_app.
  simpl. repeat split. discriminate.
Qed.

(** X20.  When the processor raises in [_apply], the exception leaves the
    handler, no attribute of the controller is changed (slots, labels and
    enabled flags are as before), and the command has already been pushed:
    it is the tail of the undo stack and the redo stack has been emptied. *)
Theorem apply_with_failing_processor
    {sk : Skimage} (k : ProcKind) (w : MainWindowController.t)
    (src : ndarray) (e : exn) :
  img_source (MainWindowController.ctrl w) = Some src ->
  process k src = Raise e ->
  MainWindowController._apply k w
    = (Raise e,
       MainWindowController.mk
         (MainWindowController.ctrl w)
         (CommandHistory.mk
            (CommandHistory._undo_stack (MainWindowController.history w)
               ++ [mk_Command (MainWindowController.next_oid w)
                     (BaseImageCommand k
                        (img_output (MainWindowController.ctrl w)))])
            [])
         (S (MainWindowController.next_oid w))).
Proof.
  destruct w as [c h n]. simpl. intros Hs He.
  unfold MainWindowController._apply; simpl. rewrite Hs.
  unfold Command_execute, new_BaseImageCommand; simpl. rewrite Hs. simpl.
  rewrite He. unfold CommandHistory.push.
  destruct (img_output c); reflexivity.
Qed.

Lemma undo_after_first_apply_raises_witness :
  fst (MainWindowController.undo (sk := skimage_example)
         (MainWindowController.run (sk := skimage_example)
            [open_gray; MainWindowController.Apply MultiOtsu]
            MainWindowController.init))
  = Raise AttributeError.
Proof.
  apply (undo_after_first_apply_raises (sk := skimage_example) MultiOtsu
           (MainWindowController.run (sk := skimage_example) [open_gray]
              MainWindowController.init)
           _ gray_0_100_200).
  - reflexivity.
  - reflexivity.
  - vm_compute. reflexivity.
Defined.

Lemma apply_with_failing_processor_witness :
  fst (MainWindowController._apply (sk := skimage_example) Grayscale
         (MainWindowController.run (sk := skimage_example) [open_gray]
            MainWindowController.init))
  = Raise LibraryError.
Proof.
  rewrite (apply_with_failing_processor (sk := skimage_example) Grayscale
             (MainWindowController.run (sk := skimage_example) [open_gray]
                MainWindowController.init)
             gray_0_100_200 LibraryError).
  - reflexivity.
  - reflexivity.
  - reflexivity.
Defined.
